(** * InvenTrack: the CSV parser, the inventory store and the derived view

    A shallow embedding of [src/InvenTrack.jsx].

    JavaScript strings are modelled by [string] and stand for ASCII text:
    [trim] strips TAB, LF, VT, FF, CR and SPACE, [toLowerCase] maps [A-Z] to
    [a-z], and characters above 127 are neither white space nor cased.
    An [undefined] result of array indexing is [None], the [-1] of [indexOf]
    is [None], and a thrown [Error] is the [Throw] outcome carrying the
    error's [message].

    The remote collection is a finite map from document identifiers to item
    records.  What the backend answers (a snapshot, a rejection, the
    identifiers it hands out) is an input of the handlers, and every request
    a handler sends is appended to a trace, so that "no write was attempted"
    is a statement about that trace. *)

From Stdlib Require Import String Ascii List Bool Arith Lia DecimalString.
From stdpp Require Import base option list gmap strings fin_maps.

Local Open Scope string_scope.
Local Open Scope list_scope.

(** ** JavaScript string primitives used by the program *)

Module JS.

(** White space and line terminators recognised by [String.prototype.trim]
    among the 8-bit characters: TAB, LF, VT, FF, CR and SPACE. *)
Definition isWhiteSpace (c : ascii) : bool :=
  let n := nat_of_ascii c in
  ((9 <=? n) && (n <=? 13) || (n =? 32))%nat.

Fixpoint trimStart (s : string) : string :=
  match s with
  | EmptyString => EmptyString
  | String c s' => if isWhiteSpace c then trimStart s' else s
  end.

Fixpoint trimEnd (s : string) : string :=
  match s with
  | EmptyString => EmptyString
  | String c s' =>
      match trimEnd s' with
      | EmptyString => if isWhiteSpace c then EmptyString else String c EmptyString
      | t => String c t
      end
  end.

Definition trim (s : string) : string := trimEnd (trimStart s).

Definition toLowerCaseChar (c : ascii) : ascii :=
  let n := nat_of_ascii c in
  if ((65 <=? n) && (n <=? 90))%nat then ascii_of_nat (n + 32) else c.

Fixpoint toLowerCase (s : string) : string :=
  match s with
  | EmptyString => EmptyString
  | String c s' => String (toLowerCaseChar c) (toLowerCase s')
  end.

(** [s.split(sep)] for a one-character separator: never the empty array. *)
Fixpoint split (sep : ascii) (s : string) : list string :=
  match s with
  | EmptyString => [EmptyString]
  | String c s' =>
      if Ascii.eqb c sep then EmptyString :: split sep s'
      else match split sep s' with
           | [] => [String c EmptyString]
           | w :: ws => String c w :: ws
           end
  end.

(** [s.includes(t)]: [t] occurs in [s] at some position. *)
Fixpoint includes (s t : string) : bool :=
  String.prefix t s ||
  match s with
  | EmptyString => false
  | String _ s' => includes s' t
  end.

(** [arr.indexOf(x)]: position of the first element strictly equal to [x];
    [None] stands for [-1]. *)
Fixpoint indexOf (arr : list string) (x : string) : option nat :=
  match arr with
  | [] => None
  | y :: arr' => if String.eqb y x then Some 0 else S <$> indexOf arr' x
  end.

(** Truthiness of a string ([""] is falsy) and of a possibly [undefined]
    or [null] string. *)
Definition truthy (s : string) : bool := negb (String.eqb s "").

Definition truthyOpt (o : option string) : bool :=
  match o with
  | Some s => truthy s
  | None => false
  end.

(** Outcome of a computation that may throw an [Error]. *)
Inductive Outcome (A : Type) : Type :=
| Return (a : A)
| Throw (message : string).
Arguments Return {A} a.
Arguments Throw {A} message.

End JS.

Import JS.

(** ** Item records *)

(** A parsed record, which is also the data of a stored document. *)
Record ItemRecord : Type := mkRecord {
  name : string;
  category : string;
  taken : bool
}.

Definition dquote : string := String "034"%char EmptyString.
Definition newline : ascii := "010"%char.
Definition comma : ascii := ","%char.

(** ** The CSV parser (parseCSV) *)

Definition missingColumnsMessage : string :=
  "CSV must contain " +:+ dquote +:+ "name" +:+ dquote +:+ " and "
    +:+ dquote +:+ "category" +:+ dquote +:+ " columns.".

(** One iteration of the [for] loop over the data lines. *)
Definition parseLine (nameIndex categoryIndex : nat) (line : string)
    (items : list ItemRecord) : list ItemRecord :=
  if negb (truthy line) then items
  else
    let values := split comma line in
    let name := if truthyOpt (values !! nameIndex)
                then trim (default "" (values !! nameIndex)) else "" in
    let category := if truthyOpt (values !! categoryIndex)
                    then trim (default "" (values !! categoryIndex))
                    else "Uncategorized" in
    if truthy name then items ++ [mkRecord name category false] else items.

Fixpoint parseLines (nameIndex categoryIndex : nat) (lines : list string)
    (items : list ItemRecord) : list ItemRecord :=
  match lines with
  | [] => items
  | line :: rest =>
      parseLines nameIndex categoryIndex rest
        (parseLine nameIndex categoryIndex line items)
  end.

Definition parseCSV (csvText : string) : Outcome (list ItemRecord) :=
  let lines := split newline (trim csvText) in
  match lines with
  | [] => Throw "Cannot read properties of undefined (reading 'split')"
  | header :: rows =>
      let headers := map (fun h => toLowerCase (trim h)) (split comma header) in
      match indexOf headers "name", indexOf headers "category" with
      | Some nameIndex, Some categoryIndex =>
          Return (parseLines nameIndex categoryIndex rows [])
      | _, _ => Throw missingColumnsMessage
      end
  end.

Definition csv (lines : list string) : string :=
  String.concat (String newline EmptyString) lines.


(** ** The document store (the scoped inventory collection) *)

(** An item of the in-memory mirror: [{ id: doc.id, ...data }]. *)
Record Item : Type := mkItem {
  itemId : string;
  itemData :> ItemRecord
}.

(** A query snapshot: the documents, in the snapshot's iteration order. *)
Record Doc : Type := mkDoc {
  docId : string;
  docData : ItemRecord
}.

Inductive BatchOp : Type :=
| BatchDelete (ref : string)
| BatchSet (ref : string) (data : ItemRecord).

Definition applyOp (c : gmap string ItemRecord) (op : BatchOp)
    : gmap string ItemRecord :=
  match op with
  | BatchDelete ref => delete ref c
  | BatchSet ref data => <[ref := data]> c
  end.

(** A committed batch takes effect as a whole, its writes in the order in
    which they were added. *)
Definition applyBatch (ops : list BatchOp) (c : gmap string ItemRecord)
    : gmap string ItemRecord :=
  fold_left applyOp ops c.

(** Requests sent to the backend. *)
Inductive BackendCall : Type :=
| CallGetDocs
| CallCommit (ops : list BatchOp)
| CallUpdateDoc (ref : string) (takenValue : bool).

(** ** Component state *)

Record AppState : Type := mkApp {
  items : list Item;
  categories : list string;
  selectedCategory : string;
  searchQuery : string;
  isAuthReady : bool;
  userId : option string;
  isLoading : bool;
  error : option string;
  uploading : bool;
  uploadSuccess : option string
}.

Definition initialState : AppState :=
  mkApp [] [] "All" "" false None true None false None.

Definition setItems (v : list Item) (st : AppState) : AppState :=
  mkApp v (categories st) (selectedCategory st) (searchQuery st)
    (isAuthReady st) (userId st) (isLoading st) (error st) (uploading st)
    (uploadSuccess st).

Definition setCategories (v : list string) (st : AppState) : AppState :=
  mkApp (items st) v (selectedCategory st) (searchQuery st)
    (isAuthReady st) (userId st) (isLoading st) (error st) (uploading st)
    (uploadSuccess st).

Definition setSelectedCategory (v : string) (st : AppState) : AppState :=
  mkApp (items st) (categories st) v (searchQuery st)
    (isAuthReady st) (userId st) (isLoading st) (error st) (uploading st)
    (uploadSuccess st).

Definition setSearchQuery (v : string) (st : AppState) : AppState :=
  mkApp (items st) (categories st) (selectedCategory st) v
    (isAuthReady st) (userId st) (isLoading st) (error st) (uploading st)
    (uploadSuccess st).

Definition setIsAuthReady (v : bool) (st : AppState) : AppState :=
  mkApp (items st) (categories st) (selectedCategory st) (searchQuery st)
    v (userId st) (isLoading st) (error st) (uploading st)
    (uploadSuccess st).

Definition setUserId (v : option string) (st : AppState) : AppState :=
  mkApp (items st) (categories st) (selectedCategory st) (searchQuery st)
    (isAuthReady st) v (isLoading st) (error st) (uploading st)
    (uploadSuccess st).

Definition setIsLoading (v : bool) (st : AppState) : AppState :=
  mkApp (items st) (categories st) (selectedCategory st) (searchQuery st)
    (isAuthReady st) (userId st) v (error st) (uploading st)
    (uploadSuccess st).

Definition setError (v : option string) (st : AppState) : AppState :=
  mkApp (items st) (categories st) (selectedCategory st) (searchQuery st)
    (isAuthReady st) (userId st) (isLoading st) v (uploading st)
    (uploadSuccess st).

Definition setUploading (v : bool) (st : AppState) : AppState :=
  mkApp (items st) (categories st) (selectedCategory st) (searchQuery st)
    (isAuthReady st) (userId st) (isLoading st) (error st) v
    (uploadSuccess st).

Definition setUploadSuccess (v : option string) (st : AppState) : AppState :=
  mkApp (items st) (categories st) (selectedCategory st) (searchQuery st)
    (isAuthReady st) (userId st) (isLoading st) (error st) (uploading st)
    v.

(** The component together with the remote collection and the trace of
    requests the component has sent to the backend. *)
Record World : Type := mkWorld {
  app : AppState;
  store : gmap string ItemRecord;
  calls : list BackendCall
}.

(** ** Handlers as state-passing computations that may throw *)

Definition Eff (A : Type) : Type := World -> Outcome A * World.

Definition ret {A} (a : A) : Eff A := fun w => (Return a, w).

Definition throw {A} (message : string) : Eff A := fun w => (Throw message, w).

Definition bind {A B} (m : Eff A) (k : A -> Eff B) : Eff B :=
  fun w =>
    match m w with
    | (Return a, w') => k a w'
    | (Throw message, w') => (Throw message, w')
    end.

(** [try { body } catch (err) { handler err.message }] *)
Definition tryCatch (body : Eff unit) (handler : string -> Eff unit) : Eff unit :=
  fun w =>
    match body w with
    | (Return a, w') => (Return a, w')
    | (Throw message, w') => handler message w'
    end.

Declare Scope eff_scope.
Delimit Scope eff_scope with eff.
Notation "x <- m ;; k" := (bind m (fun x => k))
  (at level 100, m at next level, right associativity) : eff_scope.
Notation "m ;;; k" := (bind m (fun _ => k))
  (at level 100, right associativity) : eff_scope.

Definition liftOutcome {A} (o : Outcome A) : Eff A := fun w => (o, w).

Definition setState (f : AppState -> AppState) : Eff unit :=
  fun w => (Return tt, mkWorld (f (app w)) (store w) (calls w)).

Definition request (c : BackendCall) (w : World) : World :=
  mkWorld (app w) (store w) (calls w ++ [c]).

(** ** Backend primitives; their results are supplied by the environment *)

(** [getDocs(query)]: resolves with a snapshot or rejects. *)
Definition getDocs (result : Outcome (list Doc)) : Eff (list Doc) :=
  fun w => (result, request CallGetDocs w).

(** [batch.commit()]: all of the batch's writes or none of them. *)
Definition commit (result : Outcome unit) (batch : list BatchOp) : Eff unit :=
  fun w =>
    let w' := request (CallCommit batch) w in
    match result with
    | Return _ => (Return tt, mkWorld (app w') (applyBatch batch (store w')) (calls w'))
    | Throw message => (Throw message, w')
    end.

Definition withTaken (v : bool) (d : ItemRecord) : ItemRecord :=
  mkRecord (name d) (category d) v.

(** [updateDoc(ref, { taken: v })]: a partial update of an existing
    document; it rejects when the document does not exist. *)
Definition updateDoc (result : Outcome unit) (ref : string) (v : bool) : Eff unit :=
  fun w =>
    let w' := request (CallUpdateDoc ref v) w in
    match result, store w' !! ref with
    | Return _, Some d =>
        (Return tt, mkWorld (app w') (<[ref := withTaken v d]> (store w')) (calls w'))
    | Return _, None => (Throw "No document to update", w')
    | Throw message, _ => (Throw message, w')
    end.

(** ** Session manager (the onAuthStateChanged listener) *)

Definition onAuthStateChanged (user : option string) (signInResult : Outcome unit)
    (st : AppState) : AppState :=
  let st1 :=
    match user with
    | Some uid => setUserId (Some uid) st
    | None =>
        match signInResult with
        | Return _ => st
        | Throw _ => setError (Some "Failed to authenticate. Please refresh.") st
        end
    end in
  setIsAuthReady true st1.

(** ** Inventory store (the onSnapshot subscription) *)

(** [set.add(x)] on a [Set] kept in insertion order. *)
Definition setAdd (x : string) (s : list string) : list string :=
  if existsb (String.eqb x) s then s else s ++ [x].

(** The body of [querySnapshot.forEach] in the success callback. *)
Definition collectDoc (acc : list Item * list string) (d : Doc)
    : list Item * list string :=
  let data := docData d in
  (acc.1 ++ [mkItem (docId d) data],
   if truthy (category data) then setAdd (category data) acc.2 else acc.2).

Definition onSnapshotNext (querySnapshot : list Doc) (st : AppState) : AppState :=
  let acc := fold_left collectDoc querySnapshot ([], ["All"]) in
  let dbItems := acc.1 in
  let dbCategories := acc.2 in
  setError None (setIsLoading false (setCategories dbCategories (setItems dbItems st))).

Definition onSnapshotError (st : AppState) : AppState :=
  setIsLoading false
    (setError (Some "Failed to load items. Check console for details.") st).

(** ** Upload workflow (handleFileUpload) *)

Inductive FileRead : Type :=
| ReadOk (text : string)
| ReadFailed.

(** What the backend answers during one upload: the result of [getDocs],
    the identifiers handed out by [doc(collection(...))] (the [k]-th new
    reference gets [autoId k]) and the result of [batch.commit()]. *)
Record UploadEnv : Type := mkUploadEnv {
  getDocsResult : Outcome (list Doc);
  autoId : nat -> string;
  commitResult : Outcome unit
}.

Definition decimal (n : nat) : string := NilEmpty.string_of_uint (Nat.to_uint n).

Definition buildBatch (env : UploadEnv) (querySnapshot : list Doc)
    (parsedItems : list ItemRecord) : list BatchOp :=
  let batch := map (fun d => BatchDelete (docId d)) querySnapshot in
  batch ++ imap (fun k item => BatchSet (autoId env k) item) parsedItems.

Definition onload (env : UploadEnv) (text : string) : Eff unit :=
  tryCatch
    (parsedItems <- liftOutcome (parseCSV text);;
     (if (length parsedItems =? 0)%nat
      then throw "No valid items found in the CSV." else ret tt);;;
     querySnapshot <- getDocs (getDocsResult env);;
     commit (commitResult env) (buildBatch env querySnapshot parsedItems);;;
     setState (setUploadSuccess
       (Some ("Successfully uploaded " +:+ decimal (length parsedItems) +:+ " items!")));;;
     setState (setUploading false))%eff
    (fun message =>
       setState (setError (Some ("Upload Failed: " +:+ message)));;;
       setState (setUploading false))%eff.

Definition onerror : Eff unit :=
  (setState (setError (Some "Failed to read the file."));;;
   setState (setUploading false))%eff.

Definition handleFileUpload (file : option FileRead) (env : UploadEnv)
    (w : World) : World :=
  match file with
  | None => w
  | Some read =>
      let start :=
        (setState (setUploading true);;;
         setState (setError None);;;
         setState (setUploadSuccess None))%eff in
      let reader :=
        match read with
        | ReadOk text => onload env text
        | ReadFailed => onerror
        end in
      (bind start (fun _ => reader) w).2
  end.

(** The [setTimeout] callback that clears the confirmation message. *)
Definition clearUploadSuccess (st : AppState) : AppState := setUploadSuccess None st.

(** ** Item interaction (handleTakeItem) *)

Definition handleTakeItem (itemId : string) (currentStatus : bool)
    (updateResult : Outcome unit) (w : World) : World :=
  if negb (truthyOpt (userId (app w))) then
    (setState (setError (Some "You must be signed in to take an item.")) w).2
  else
    (tryCatch
       (updateDoc updateResult itemId (negb currentStatus))
       (fun _ => setState (setError (Some "Failed to update item."))) w).2.

(** ** Derived view state *)

Definition categoryFilteredItems (items : list Item) (selectedCategory : string)
    : list Item :=
  if String.eqb selectedCategory "All" then items
  else List.filter (fun item : Item => String.eqb (category item) selectedCategory) items.

Definition displayedItems (categoryFilteredItems : list Item) (searchQuery : string)
    : list Item :=
  if negb (truthy searchQuery) then categoryFilteredItems
  else
    let lowerCaseQuery := toLowerCase searchQuery in
    List.filter (fun item : Item => includes (toLowerCase (name item)) lowerCaseQuery)
      categoryFilteredItems.

Module Stats.
Record t : Type := mk {
  total : Z;
  taken : Z;
  notTaken : Z
}.
End Stats.

Definition dashboardStats (categoryFilteredItems : list Item) : Stats.t :=
  let sourceItems := categoryFilteredItems in
  let total := Z.of_nat (length sourceItems) in
  let taken := Z.of_nat (length (List.filter (fun item : Item => taken item) sourceItems)) in
  let notTaken := (total - taken)%Z in
  Stats.mk total taken notTaken.

(** What a render of the component derives from its state. *)
Record View : Type := mkView {
  displayed : list Item;
  stats : Stats.t
}.

Definition render (st : AppState) : View :=
  let filtered := categoryFilteredItems (items st) (selectedCategory st) in
  mkView (displayedItems filtered (searchQuery st)) (dashboardStats filtered).

(** ** The subscription effect *)

(** The effect that opens the subscription: it returns early ([None])
    until the session is resolved with a user identifier, and otherwise
    raises the loading flag before it subscribes. *)
Definition subscriptionEffect (st : AppState) : option AppState :=
  if negb (isAuthReady st) || negb (truthyOpt (userId st)) then None
  else Some (setIsLoading true st).

(** ** What the component renders *)

(** A row of the item list (the ItemRow component): the name, the category
    when it is to be shown, whether the row is dimmed, the label of its
    button and the arguments its button passes to [onTakeItem]. *)
Record Row : Type := mkRow {
  rowName : string;
  rowCategory : option string;
  rowDimmed : bool;
  buttonLabel : string;
  onClick : string * bool
}.

Definition ItemRow (item : Item) (showCategory : bool) : Row :=
  let isTaken := taken item in
  mkRow (name item)
    (if showCategory then Some (category item) else None)
    isTaken
    (if isTaken then "Return" else "Take Item")
    (itemId item, taken item).

Inductive ListArea : Type :=
| Rows (rows : list Row)
| Placeholder (message : string).

(** [{value && <element>}] for a string or null [value]. *)
Definition whenTruthy (value : option string) : option string :=
  if truthyOpt value then value else None.

(** The screen behind the loading gate; static markup is left out. *)
Record Main : Type := mkMain {
  userLine : option string;
  uploadLabel : string;
  uploadDisabled : bool;
  successBanner : option string;
  errorBanner : option string;
  dashboardTitle : string;
  counts : Stats.t;
  chips : list (string * bool);
  listCount : nat;
  searchValue : string;
  listArea : ListArea
}.

Inductive Screen : Type :=
| LoadingScreen
| MainScreen (main : Main).

Definition App (st : AppState) : Screen :=
  let filtered := categoryFilteredItems (items st) (selectedCategory st) in
  let shown := displayedItems filtered (searchQuery st) in
  if negb (isAuthReady st) || isLoading st then LoadingScreen
  else
    MainScreen
      (mkMain
         (userId st)
         (if uploading st then "Uploading..." else "Upload CSV")
         (uploading st)
         (whenTruthy (uploadSuccess st))
         (whenTruthy (error st))
         (if String.eqb (selectedCategory st) "All" then "Overall"
          else selectedCategory st)
         (dashboardStats filtered)
         (map (fun category => (category, String.eqb (selectedCategory st) category))
            (categories st))
         (length shown)
         (searchQuery st)
         (if (0 <? length shown)%nat
          then Rows (map (fun item =>
                       ItemRow item (String.eqb (selectedCategory st) "All")) shown)
          else Placeholder
                 (if (length (items st) =? 0)%nat then "Upload a CSV to get started."
                  else if truthy (searchQuery st) then "No items match your search."
                  else "No items found for this category."))).

(** A click on the button of a row. *)
Definition clickRow (row : Row) (updateResult : Outcome unit) (w : World) : World :=
  handleTakeItem (onClick row).1 (onClick row).2 updateResult w.

(** The data lines the parser does not skip. *)
Definition nonEmptyLines (lines : list string) : list string :=
  List.filter truthy lines.

(** The snapshot lists exactly the documents of the collection, each once. *)
Definition snapshotOf (c : gmap string ItemRecord) (querySnapshot : list Doc) : Prop :=
  NoDup (map docId querySnapshot) /\
  forall ref data, mkDoc ref data ∈ querySnapshot <-> c !! ref = Some data.

(** A snapshot of a collection, its documents in the map's enumeration order. *)
Definition docsOf (c : gmap string ItemRecord) : list Doc :=
  map (fun p => mkDoc p.1 p.2) (map_to_list c).

(** ** Vocabulary of the specification *)

(** The header row and the data rows of a CSV text. *)
Definition headerLine (csvText : string) : string :=
  hd "" (split newline (trim csvText)).

Definition dataLines (csvText : string) : list string :=
  tl (split newline (trim csvText)).

(** The header has a column named [col], matched case-insensitively. *)
Definition hasColumn (header col : string) : bool :=
  existsb (fun cell => String.eqb (toLowerCase (trim cell)) col)
    (split comma header).

(** [t] occurs in [s] as a substring. *)
Definition containsSubstring (s t : string) : Prop :=
  exists pre post, s = pre +:+ t +:+ post.

(** [Kept P l l']: [l'] keeps exactly the elements of [l] that satisfy [P],
    in their order. *)
Inductive Kept {A : Type} (P : A -> Prop) : list A -> list A -> Prop :=
| Kept_nil : Kept P [] []
| Kept_keep x l l' : P x -> Kept P l l' -> Kept P (x :: l) (x :: l')
| Kept_drop x l l' : ~ P x -> Kept P l l' -> Kept P (x :: l) l'.

(** Stage 1 and stage 2 of the view pipeline, as predicates on an item. *)
Definition inCategory (selection : string) (item : Item) : Prop :=
  selection = "All" \/ category item = selection.

Definition matchesSearch (text : string) (item : Item) : Prop :=
  text = "" \/ containsSubstring (toLowerCase (name item)) (toLowerCase text).

(** The snapshot fetched by [getDocs] lists every document of the collection. *)
Definition fetchedAll (querySnapshot : list Doc) (c : gmap string ItemRecord) : Prop :=
  forall ref, is_Some (c !! ref) -> ref ∈ map docId querySnapshot.

(** The identifiers given to the new documents of an upload of [n] records. *)
Definition newIds (env : UploadEnv) (n : nat) : list string :=
  map (autoId env) (seq 0 n).

(** The underlying error of an upload whose file was read: the first of
    parsing, the empty-result check, the fetch of the existing documents and
    the commit that fails, with its message. *)
Definition uploadFailure (text : string) (env : UploadEnv) : option string :=
  match parseCSV text with
  | Throw message => Some message
  | Return [] => Some "No valid items found in the CSV."
  | Return (_ :: _) =>
      match getDocsResult env with
      | Throw message => Some message
      | Return _ =>
          match commitResult env with
          | Throw message => Some message
          | Return _ => None
          end
      end
  end.

(** The states the upload workflow passes through. *)

(** The component state when the file reader calls back. *)
Definition started (st : AppState) : AppState :=
  setUploadSuccess None (setError None (setUploading true st)).

Definition failed (message : string) (st : AppState) : AppState :=
  setUploading false (setError (Some ("Upload Failed: " +:+ message)) (started st)).

Definition succeeded (n : nat) (st : AppState) : AppState :=
  setUploading false
    (setUploadSuccess
       (Some ("Successfully uploaded " +:+ decimal n +:+ " items!")) (started st)).

(** The item the snapshot handler builds from a document. *)
Definition toItem (d : Doc) : Item := mkItem (docId d) (docData d).

(** ** Sample inputs *)

Definition rejectingEnv : UploadEnv :=
  mkUploadEnv (Return [mkDoc "d1" (mkRecord "Old" "Cat" true)])
    (fun k => "new" +:+ decimal k) (Throw "permission-denied").

Definition sampleWorld : World :=
  mkWorld initialState {["d1" := mkRecord "Old" "Cat" true]} [].

Definition sampleText : string := csv ["name,category"; "A,Cat1"; "B,"].

Definition sampleParsed : list ItemRecord :=
  [mkRecord "A" "Cat1" false; mkRecord "B" "Uncategorized" false].

Definition firstEnv : UploadEnv :=
  mkUploadEnv (Return [mkDoc "d1" (mkRecord "Old" "Cat" true)])
    (fun k => "new" +:+ decimal k) (Return tt).

Definition secondEnv : UploadEnv :=
  mkUploadEnv
    (Return [mkDoc "new0" (mkRecord "A" "Cat1" false);
             mkDoc "new1" (mkRecord "B" "Uncategorized" false)])
    (fun k => "next" +:+ decimal k) (Return tt).

Definition signedIn : World :=
  mkWorld (setUserId (Some "u1") initialState)
    {["d1" := mkRecord "Old" "Cat" true]} [].

(** A collection with a document created after the fetch of an upload. *)
Definition racedWorld : World :=
  mkWorld initialState
    {["d1" := mkRecord "Old" "Cat" true; "late" := mkRecord "Late" "Cat" false]} [].

Definition exampleItems : list Item :=
  [mkItem "1" (mkRecord "x" "A" true);
   mkItem "2" (mkRecord "y" "A" false);
   mkItem "3" (mkRecord "z" "B" false)].

(** * Properties *)

(** ** Strings *)

Section StringFacts.

Lemma truthy_true (s : string) : truthy s = true <-> s <> "".
Proof.
  unfold truthy. rewrite negb_true_iff.
  destruct (String.eqb_spec s ""); split; congruence.
Qed.

Lemma truthy_false (s : string) : truthy s = false <-> s = "".
Proof.
  unfold truthy. rewrite negb_false_iff. apply String.eqb_eq.
Qed.

Lemma split_nonempty (sep : ascii) (s : string) : split sep s <> [].
Proof.
  destruct s as [|c s]; simpl; [discriminate|].
  destruct (Ascii.eqb c sep); [discriminate|].
  destruct (split sep s); discriminate.
Qed.

Lemma split_cons (sep : ascii) (s : string) :
  exists first rest, split sep s = first :: rest.
Proof.
  destruct (split sep s) as [|first rest] eqn:E; [|eauto].
  now apply split_nonempty in E.
Qed.

(** Joining the pieces with the separator gives the text back. *)
Lemma concat_split (sep : ascii) (s : string) :
  String.concat (String sep "") (split sep s) = s.
Proof.
  induction s as [|c s IH]; [reflexivity|].
  cbn [split].
  destruct (split_cons sep s) as (first & rest & E). rewrite E in *.
  destruct (Ascii.eqb_spec c sep) as [->|Hne].
  - change (String.concat (String sep "") ("" :: first :: rest))
      with (String sep (String.concat (String sep "") (first :: rest))).
    now rewrite IH.
  - rewrite <- IH. now destruct rest.
Qed.

Lemma append_String (c : ascii) (s t : string) :
  String c s +:+ t = String c (s +:+ t).
Proof. reflexivity. Qed.


Lemma prefix_app (t s : string) :
  String.prefix t s = true <-> exists post, s = t +:+ post.
Proof.
  revert s. induction t as [|c t IH]; intros s.
  - split; [intros _; now exists s | now destruct s].
  - destruct s as [|d s]; cbn [String.prefix].
    + split; [discriminate | intros [post E]; discriminate].
    + destruct (ascii_dec c d) as [->|Hne].
      * rewrite IH.
        split; intros [post E]; exists post;
          rewrite append_String in *; congruence.
      * split; [discriminate|].
        intros [post E]. rewrite append_String in E. congruence.
Qed.

Lemma includes_spec (s t : string) :
  includes s t = true <-> containsSubstring s t.
Proof.
  unfold containsSubstring.
  induction s as [|c s IH]; cbn [includes].
  - rewrite orb_false_r, prefix_app. split.
    + intros [post E]. now exists "", post.
    + intros (pre & post & E). destruct pre as [|d pre].
      * eauto.
      * rewrite append_String in E. discriminate.
  - rewrite orb_true_iff, prefix_app, IH. split.
    + intros [[post E] | (pre & post & E)].
      * now exists "", post.
      * exists (String c pre), post. rewrite append_String. now rewrite E.
    + intros (pre & post & E). destruct pre as [|d pre].
      * left. eauto.
      * right. exists pre, post. rewrite append_String in E. congruence.
Qed.

Lemma indexOf_None (arr : list string) (x : string) :
  indexOf arr x = None <-> ~ In x arr.
Proof.
  induction arr as [|y arr IH]; simpl; [tauto|].
  destruct (String.eqb_spec y x) as [->|Hne].
  - split; [discriminate | tauto].
  - destruct (indexOf arr x); simpl in *.
    + split; [discriminate|]. intros H. exfalso. apply H. right.
      destruct IH as [_ IH]. destruct (in_dec string_dec x arr); [assumption|].
      now specialize (IH n0).
    + split; [|reflexivity]. intros _ [E|Hin]; [congruence|]. now apply IH.
Qed.

Lemma hasColumn_indexOf (header col : string) :
  hasColumn header col = false <->
  indexOf (map (fun h => toLowerCase (trim h)) (split comma header)) col = None.
Proof.
  unfold hasColumn. rewrite indexOf_None.
  generalize (split comma header). intros cells.
  induction cells as [|cell cells IH]; simpl; [tauto|].
  rewrite orb_false_iff, IH, String.eqb_neq. tauto.
Qed.

Example trim_sample : trim (String "009" "  a b " +:+ String "013" "") = "a b".
Proof. reflexivity. Qed.

Example split_sample : split comma "B," = ["B"; ""] /\ split comma "" = [""].
Proof. split; reflexivity. Qed.

Example toLowerCase_sample : toLowerCase " NaMe-9" = " name-9".
Proof. reflexivity. Qed.

Example includes_sample :
  includes "widget" "dge" = true /\ includes "widget" "" = true /\
  includes "widget" "gex" = false.
Proof. repeat split. Qed.

End StringFacts.

(** ** The CSV parser *)

Section Parser.

Variable csvText : string.

Lemma parseCSV_header :
  exists rows, split newline (trim csvText) = headerLine csvText :: rows.
Proof.
  unfold headerLine.
  destruct (split_cons newline (trim csvText)) as (first & rest & E).
  rewrite E. now exists rest.
Qed.

(** The parser throws exactly when a required column is missing. *)
Lemma parseCSV_throws :
  hasColumn (headerLine csvText) "name" = false \/
  hasColumn (headerLine csvText) "category" = false ->
  parseCSV csvText = Throw missingColumnsMessage.
Proof.
  intros H. unfold parseCSV.
  destruct parseCSV_header as [rows ->].
  rewrite !hasColumn_indexOf in H.
  destruct H as [-> | H]; [reflexivity|].
  rewrite H. now destruct (indexOf _ "name").
Qed.

Lemma parseCSV_returns :
  hasColumn (headerLine csvText) "name" = true ->
  hasColumn (headerLine csvText) "category" = true ->
  exists nameIndex categoryIndex,
    parseCSV csvText =
    Return (parseLines nameIndex categoryIndex (dataLines csvText) []).
Proof.
  intros Hn Hc. unfold parseCSV, dataLines.
  destruct parseCSV_header as [rows ->]. cbn [tl].
  destruct (indexOf _ "name") as [i|] eqn:Ei.
  - destruct (indexOf _ "category") as [j|] eqn:Ej; [eauto|].
    apply hasColumn_indexOf in Ej. congruence.
  - apply hasColumn_indexOf in Ei. congruence.
Qed.

(** Every emitted record has a non-empty name and is not taken. *)
Lemma parseLines_named (nameIndex categoryIndex : nat) (lines : list string)
    (items : list ItemRecord) :
  Forall (fun r => name r <> "" /\ taken r = false) items ->
  Forall (fun r => name r <> "" /\ taken r = false)
    (parseLines nameIndex categoryIndex lines items).
Proof.
  revert items. induction lines as [|line lines IH]; intros items Hitems.
  - exact Hitems.
  - cbn [parseLines]. apply IH. unfold parseLine.
    destruct (negb (truthy line)); [assumption|].
    match goal with |- context [if truthy ?n then _ else _] =>
      destruct (truthy n) eqn:Hname end; [|assumption].
    apply Forall_app. split; [assumption|].
    constructor; [|constructor]. split; [|reflexivity].
    now apply truthy_true.
Qed.

Lemma parseCSV_named (items : list ItemRecord) :
  parseCSV csvText = Return items ->
  Forall (fun r => name r <> "" /\ taken r = false) items.
Proof.
  unfold parseCSV. destruct (split newline (trim csvText)); [discriminate|].
  destruct (indexOf _ "name"); [|discriminate].
  destruct (indexOf _ "category"); [|discriminate].
  intros [= <-]. apply parseLines_named. constructor.
Qed.

End Parser.

(** A file with CRLF line ends: the carriage return left in an empty
    category field is trimmed away after the default was decided. *)
Example parseCSV_crlf :
  parseCSV ("name,category" +:+ String "013" (String "010" "B,")
              +:+ String "013" (String "010" "C,x")) =
  Return [mkRecord "B" "" false; mkRecord "C" "x" false].
Proof. vm_compute. reflexivity. Qed.

(** C4. On the header [name,category] followed by the rows [A,Cat1], [B,]
    and [,Cat2] the parser returns the record of A and then the record of B
    with category Uncategorized, both not taken, and drops the row without a
    name; and on every text whose header row has no column matching [name],
    or none matching [category], case-insensitively, the parser throws its
    format error. *)
Theorem parseCSV_sample_and_missing_columns :
  parseCSV (csv ["name,category"; "A,Cat1"; "B,"; ",Cat2"]) =
    Return [mkRecord "A" "Cat1" false; mkRecord "B" "Uncategorized" false] /\
  forall csvText : string,
    hasColumn (headerLine csvText) "name" = false \/
    hasColumn (headerLine csvText) "category" = false ->
    parseCSV csvText = Throw missingColumnsMessage.
Proof.
  split; [vm_compute; reflexivity|].
  exact parseCSV_throws.
Qed.

Lemma parseCSV_sample_and_missing_columns_witness :
  (hasColumn (headerLine (csv ["Item,CATEGORY"; "A,Cat1"])) "name" = false \/
   hasColumn (headerLine (csv ["Item,CATEGORY"; "A,Cat1"])) "category" = false) /\
  parseCSV (csv ["Item,CATEGORY"; "A,Cat1"]) = Throw missingColumnsMessage.
Proof.
  split.
  - left. vm_compute. reflexivity.
  - apply (proj2 parseCSV_sample_and_missing_columns).
    left. vm_compute. reflexivity.
Defined.

(** C1. The default category is applied before trimming: a row whose name
    is B and whose category field is a single space is accepted, and the
    emitted record carries the empty category, not Uncategorized. *)
Theorem parseCSV_blank_category_kept :
  parseCSV (csv ["name,category"; "B, "; "C,x"]) =
    Return [mkRecord "B" "" false; mkRecord "C" "x" false].
Proof. vm_compute. reflexivity. Qed.

(** ** The upload workflow *)

(** Unfolds the state-passing computation of a handler. *)
Ltac run_handler :=
  unfold handleFileUpload, handleTakeItem, onload, onerror, tryCatch, bind,
    liftOutcome, getDocs, commit, updateDoc, setState, throw, ret, request;
  cbn [app store calls fst snd].

Section Upload.

Variables (env : UploadEnv) (w : World).

(** The workflow, case by case. *)
Lemma handleFileUpload_read (text : string) :
  handleFileUpload (Some (ReadOk text)) env w =
  match parseCSV text with
  | Throw message => mkWorld (failed message (app w)) (store w) (calls w)
  | Return [] =>
      mkWorld (failed "No valid items found in the CSV." (app w)) (store w) (calls w)
  | Return (p :: ps) =>
      match getDocsResult env with
      | Throw message =>
          mkWorld (failed message (app w)) (store w) (calls w ++ [CallGetDocs])
      | Return querySnapshot =>
          let batch := buildBatch env querySnapshot (p :: ps) in
          let sent := (calls w ++ [CallGetDocs]) ++ [CallCommit batch] in
          match commitResult env with
          | Throw message => mkWorld (failed message (app w)) (store w) sent
          | Return _ =>
              mkWorld (succeeded (length (p :: ps)) (app w))
                (applyBatch batch (store w)) sent
          end
      end
  end.
Proof.
  run_handler.
  destruct (parseCSV text) as [[|p ps]|message]; try reflexivity.
  cbn [length Nat.eqb].
  destruct (getDocsResult env) as [querySnapshot|message]; try reflexivity.
  destruct (commitResult env) as [[]|message]; reflexivity.
Qed.

Lemma handleFileUpload_read_failed :
  handleFileUpload (Some ReadFailed) env w =
  mkWorld
    (setUploading false (setError (Some "Failed to read the file.") (started (app w))))
    (store w) (calls w).
Proof. reflexivity. Qed.

(** X24. The collection after an upload is the collection before it, or the
    collection after the whole batch: no part of a batch is ever applied. *)
Lemma upload_store_all_or_nothing (file : option FileRead) :
  store (handleFileUpload file env w) = store w \/
  exists batch,
    commitResult env = Return tt /\
    last (calls (handleFileUpload file env w)) = Some (CallCommit batch) /\
    store (handleFileUpload file env w) = applyBatch batch (store w).
Proof.
  destruct file as [[text|]|]; [|now left|now left].
  rewrite handleFileUpload_read.
  destruct (parseCSV text) as [[|p ps]|message]; [now left| |now left].
  destruct (getDocsResult env) as [querySnapshot|message]; [|now left].
  destruct (commitResult env) as [[]|message]; [|now left].
  right. eexists. split; [reflexivity|]. split; [|reflexivity].
  cbn [calls]. apply last_snoc.
Qed.

End Upload.

(** C2, as the code has it. When the file was read and parsing, the
    empty-result check, the fetch of the existing documents or the commit
    fails, the error shown is [Upload Failed: ] followed by the message of
    the underlying error, and the uploading indicator is false again; when
    reading the file fails, the error shown is the fixed text
    [Failed to read the file.] and the uploading indicator is false again. *)
Theorem upload_failure_message :
  (forall (text message : string) (env : UploadEnv) (w : World),
     uploadFailure text env = Some message ->
     let w' := handleFileUpload (Some (ReadOk text)) env w in
     error (app w') = Some ("Upload Failed: " +:+ message) /\
     uploading (app w') = false) /\
  (forall (env : UploadEnv) (w : World),
     let w' := handleFileUpload (Some ReadFailed) env w in
     error (app w') = Some "Failed to read the file." /\
     uploading (app w') = false).
Proof.
  split.
  - intros text message env w Hfail. cbv zeta.
    rewrite handleFileUpload_read. unfold uploadFailure in Hfail.
    destruct (parseCSV text) as [[|p ps]|m].
    + injection Hfail as <-. split; reflexivity.
    + destruct (getDocsResult env) as [snap|m].
      * destruct (commitResult env) as [[]|m]; [discriminate|].
        injection Hfail as <-. split; reflexivity.
      * injection Hfail as <-. split; reflexivity.
    + injection Hfail as <-. split; reflexivity.
  - intros env w. split; reflexivity.
Qed.

Lemma upload_failure_message_witness :
  uploadFailure (csv ["name,category"; "A,Cat1"]) rejectingEnv = Some "permission-denied" /\
  error (app (handleFileUpload (Some (ReadOk (csv ["name,category"; "A,Cat1"])))
                rejectingEnv sampleWorld))
    = Some ("Upload Failed: " +:+ "permission-denied").
Proof.
  split.
  - vm_compute. reflexivity.
  - apply (proj1 upload_failure_message
             (csv ["name,category"; "A,Cat1"]) "permission-denied"
             rejectingEnv sampleWorld).
    vm_compute. reflexivity.
Defined.

(** C2, as stated, fails for step 1: after a failed file read the error
    shown is not [Upload Failed: ] followed by any message. *)
Lemma upload_read_failure_not_prefixed :
  ~ exists message : string,
      error (app (handleFileUpload (Some ReadFailed) rejectingEnv sampleWorld))
      = Some ("Upload Failed: " +:+ message).
Proof.
  intros [message H]. vm_compute in H. discriminate H.
Qed.

(** ** The replace-all batch *)

Section Batch.

Implicit Types (c : gmap string ItemRecord) (ids : list string).

Lemma applyBatch_app (ops1 ops2 : list BatchOp) c :
  applyBatch (ops1 ++ ops2) c = applyBatch ops2 (applyBatch ops1 c).
Proof. unfold applyBatch. apply fold_left_app. Qed.

Lemma applyBatch_deletes_lookup ids c (ref : string) :
  applyBatch (map BatchDelete ids) c !! ref =
  if decide (ref ∈ ids) then None else c !! ref.
Proof.
  revert c. induction ids as [|i ids IH]; intros c; cbn.
  - case_decide as H; [|reflexivity]. now apply elem_of_nil in H.
  - fold (applyBatch (map BatchDelete ids) (delete i c)). rewrite IH.
    destruct (decide (ref = i)) as [->|Hne].
    + rewrite lookup_delete_eq.
      destruct (decide (i ∈ i :: ids)) as [_|H]; [now destruct (decide _)|].
      exfalso. apply H, elem_of_cons. now left.
    + rewrite lookup_delete_ne by congruence.
      destruct (decide (ref ∈ ids)) as [H1|H1], (decide (ref ∈ i :: ids)) as [H2|H2];
        try reflexivity; exfalso.
      * apply H2, elem_of_cons. now right.
      * apply elem_of_cons in H2 as [H2|H2]; [now apply Hne | now apply H1].
Qed.

(** Deleting every fetched document empties the collection when the
    snapshot lists all of its documents. *)
Lemma applyBatch_deletes_all (querySnapshot : list Doc) c :
  fetchedAll querySnapshot c ->
  applyBatch (map (fun d => BatchDelete (docId d)) querySnapshot) c = ∅.
Proof.
  intros Hall. apply map_empty. intros ref.
  rewrite <- (map_map docId BatchDelete), applyBatch_deletes_lookup.
  case_decide as Hin; [reflexivity|].
  destruct (c !! ref) eqn:E; [|reflexivity].
  exfalso. apply Hin, Hall. now rewrite E.
Qed.

Lemma applyBatch_sets (l : list (string * ItemRecord)) c :
  NoDup l.*1 ->
  applyBatch (map (fun p => BatchSet p.1 p.2) l) c = list_to_map l ∪ c.
Proof.
  revert c. induction l as [|[i d] l IH]; intros c Hnd; cbn.
  - now rewrite (left_id_L ∅ (∪)).
  - inversion Hnd as [|? ? Hi Hl]; subst.
    fold (applyBatch (map (fun p => BatchSet p.1 p.2) l) (<[i:=d]> c)).
    rewrite IH by assumption.
    rewrite <- insert_union_l. symmetry. apply insert_union_r.
    now apply not_elem_of_list_to_map.
Qed.

Lemma imap_sets (g : nat -> string) (parsed : list ItemRecord) :
  imap (fun k item => BatchSet (g k) item) parsed =
  map (fun p => BatchSet p.1 p.2) (zip (map g (seq 0 (length parsed))) parsed).
Proof.
  revert g. induction parsed as [|item parsed IH]; intros g; [reflexivity|].
  rewrite imap_cons. cbn. f_equal.
  rewrite <- seq_shift, map_map. apply (IH (g ∘ S)).
Qed.

Lemma buildBatch_eq (env : UploadEnv) (querySnapshot : list Doc)
    (parsed : list ItemRecord) :
  buildBatch env querySnapshot parsed =
  map (fun d => BatchDelete (docId d)) querySnapshot ++
  map (fun p => BatchSet p.1 p.2) (zip (newIds env (length parsed)) parsed).
Proof. unfold buildBatch, newIds. now rewrite imap_sets. Qed.

Lemma newIds_zip (env : UploadEnv) (parsed : list ItemRecord) :
  (zip (newIds env (length parsed)) parsed).*1 = newIds env (length parsed).
Proof.
  apply fst_zip. unfold newIds. now rewrite length_map, length_seq.
Qed.

(** A committed replace-all batch leaves exactly the new documents. *)
Lemma replace_all (env : UploadEnv) (querySnapshot : list Doc)
    (parsed : list ItemRecord) c :
  fetchedAll querySnapshot c ->
  NoDup (newIds env (length parsed)) ->
  applyBatch (buildBatch env querySnapshot parsed) c =
    list_to_map (zip (newIds env (length parsed)) parsed) /\
  size (applyBatch (buildBatch env querySnapshot parsed) c) = length parsed.
Proof.
  intros Hall Hnd.
  assert (applyBatch (buildBatch env querySnapshot parsed) c =
          list_to_map (zip (newIds env (length parsed)) parsed)) as E.
  { rewrite buildBatch_eq, applyBatch_app, applyBatch_deletes_all by assumption.
    rewrite applyBatch_sets by now rewrite newIds_zip.
    apply (right_id_L ∅ (∪)). }
  split; [exact E|]. rewrite E.
  rewrite map_size_list_to_map by now rewrite newIds_zip.
  rewrite length_zip. unfold newIds. rewrite length_map, length_seq. lia.
Qed.

End Batch.

Section SuccessfulUpload.

Variables (text : string) (parsed : list ItemRecord).
Hypothesis parses : parseCSV text = Return parsed.
Hypothesis nonempty : parsed <> [].

(** The run of an upload whose fetch and commit succeed. *)
Lemma upload_success (env : UploadEnv) (querySnapshot : list Doc) (w : World) :
  getDocsResult env = Return querySnapshot ->
  commitResult env = Return tt ->
  handleFileUpload (Some (ReadOk text)) env w =
  mkWorld (succeeded (length parsed) (app w))
    (applyBatch (buildBatch env querySnapshot parsed) (store w))
    (calls w ++ [CallGetDocs; CallCommit (buildBatch env querySnapshot parsed)]).
Proof.
  intros Hget Hcommit.
  rewrite handleFileUpload_read, parses, Hget, Hcommit.
  destruct parsed; [congruence|].
  cbv zeta. now rewrite <- app_assoc.
Qed.

End SuccessfulUpload.

(** C3. When a CSV that parses to [n] records is uploaded and the fetch
    and the commit succeed, the workflow sends one fetch and then one commit
    whose batch deletes every fetched document and sets the [n] parsed
    records under new identifiers, and the collection becomes the collection
    after that whole batch; when the snapshot lists every document of the
    collection, the collection afterwards holds exactly the [n] new
    documents, so that uploading the same CSV again leaves [n] documents
    both times. *)
Theorem upload_replaces_collection
    (text : string) (parsed : list ItemRecord) (env1 env2 : UploadEnv)
    (snapshot1 snapshot2 : list Doc) (w : World) :
  parseCSV text = Return parsed -> parsed <> [] ->
  getDocsResult env1 = Return snapshot1 -> commitResult env1 = Return tt ->
  getDocsResult env2 = Return snapshot2 -> commitResult env2 = Return tt ->
  NoDup (newIds env1 (length parsed)) ->
  NoDup (newIds env2 (length parsed)) ->
  let batch1 :=
    map (fun d => BatchDelete (docId d)) snapshot1 ++
    map (fun p => BatchSet p.1 p.2) (zip (newIds env1 (length parsed)) parsed) in
  let w1 := handleFileUpload (Some (ReadOk text)) env1 w in
  let w2 := handleFileUpload (Some (ReadOk text)) env2 w1 in
  fetchedAll snapshot1 (store w) -> fetchedAll snapshot2 (store w1) ->
  calls w1 = calls w ++ [CallGetDocs; CallCommit batch1] /\
  store w1 = applyBatch batch1 (store w) /\
  store w1 = list_to_map (zip (newIds env1 (length parsed)) parsed) /\
  size (store w1) = length parsed /\
  store w2 = list_to_map (zip (newIds env2 (length parsed)) parsed) /\
  size (store w2) = length parsed.
Proof.
  intros Hparse Hne Hget1 Hcommit1 Hget2 Hcommit2 Hnd1 Hnd2 batch1 w1 w2.
  subst w2 w1.
  rewrite (upload_success text parsed Hparse Hne env1 snapshot1 w Hget1 Hcommit1).
  rewrite (upload_success text parsed Hparse Hne env2 snapshot2 _ Hget2 Hcommit2).
  cbn [store calls app].
  intros Hall1 Hall2.
  destruct (replace_all env1 snapshot1 parsed (store w) Hall1 Hnd1) as [E1 S1].
  destruct (replace_all env2 snapshot2 parsed _ Hall2 Hnd2) as [E2 S2].
  subst batch1. rewrite <- buildBatch_eq.
  repeat split; assumption || reflexivity.
Qed.

Lemma sampleWorld_fetched :
  fetchedAll [mkDoc "d1" (mkRecord "Old" "Cat" true)] (store sampleWorld).
Proof.
  intros ref [x Hx]. cbn in Hx.
  apply lookup_singleton_Some in Hx as [<- _]. cbn. apply elem_of_cons. now left.
Qed.

Lemma firstUpload_fetched :
  fetchedAll
    [mkDoc "new0" (mkRecord "A" "Cat1" false);
     mkDoc "new1" (mkRecord "B" "Uncategorized" false)]
    (store (handleFileUpload (Some (ReadOk sampleText)) firstEnv sampleWorld)).
Proof.
  assert (store (handleFileUpload (Some (ReadOk sampleText)) firstEnv sampleWorld)
          = <["new1" := mkRecord "B" "Uncategorized" false]>
              (<["new0" := mkRecord "A" "Cat1" false]> ∅)) as ->.
  { vm_compute. reflexivity. }
  intros ref [x Hx]. cbn.
  apply lookup_insert_Some in Hx as [[<- _]|[_ Hx]].
  - apply elem_of_cons. right. apply elem_of_cons. now left.
  - apply lookup_insert_Some in Hx as [[<- _]|[_ Hx]].
    + apply elem_of_cons. now left.
    + now rewrite lookup_empty in Hx.
Qed.

Lemma upload_replaces_collection_witness :
  parseCSV sampleText = Return sampleParsed /\
  size (store (handleFileUpload (Some (ReadOk sampleText)) firstEnv sampleWorld)) = 2 /\
  size (store (handleFileUpload (Some (ReadOk sampleText)) secondEnv
                 (handleFileUpload (Some (ReadOk sampleText)) firstEnv sampleWorld))) = 2.
Proof.
  assert (parseCSV sampleText = Return sampleParsed) as Hparse
    by (vm_compute; reflexivity).
  split; [exact Hparse|].
  assert (sampleParsed <> []) as Hne by discriminate.
  assert (NoDup (newIds firstEnv (length sampleParsed))) as Hnd1.
  { vm_compute. repeat constructor; rewrite ?elem_of_cons, ?elem_of_nil;
      intuition discriminate. }
  assert (NoDup (newIds secondEnv (length sampleParsed))) as Hnd2.
  { vm_compute. repeat constructor; rewrite ?elem_of_cons, ?elem_of_nil;
      intuition discriminate. }
  pose proof (upload_replaces_collection sampleText sampleParsed firstEnv secondEnv
                _ _ sampleWorld Hparse Hne eq_refl eq_refl eq_refl eq_refl Hnd1 Hnd2
                sampleWorld_fetched firstUpload_fetched) as (_ & _ & _ & S1 & _ & S2).
  split; [exact S1 | exact S2].
Defined.

(** C7. A text with valid columns and no data row parses to no record; and
    whenever the parsed result is empty the workflow ends with the error
    [Upload Failed: No valid items found in the CSV.], the uploading
    indicator false, no request sent to the backend and the collection as
    it was. *)
Theorem upload_empty_rejected :
  (forall csvText : string,
     dataLines csvText = [] ->
     hasColumn (headerLine csvText) "name" = true ->
     hasColumn (headerLine csvText) "category" = true ->
     parseCSV csvText = Return []) /\
  (forall (text : string) (env : UploadEnv) (w : World),
     parseCSV text = Return [] ->
     let w' := handleFileUpload (Some (ReadOk text)) env w in
     error (app w') = Some "Upload Failed: No valid items found in the CSV." /\
     uploading (app w') = false /\
     store w' = store w /\
     calls w' = calls w).
Proof.
  split.
  - intros csvText Hrows Hn Hc.
    destruct (parseCSV_returns csvText Hn Hc) as (i & j & ->).
    now rewrite Hrows.
  - intros text env w Hparse. cbv zeta.
    rewrite handleFileUpload_read, Hparse. repeat split.
Qed.

Lemma upload_empty_rejected_witness :
  parseCSV "Name,Category" = Return [] /\
  calls (handleFileUpload (Some (ReadOk "Name,Category")) firstEnv sampleWorld) = [] /\
  store (handleFileUpload (Some (ReadOk "Name,Category")) firstEnv sampleWorld)
    = store sampleWorld.
Proof.
  assert (parseCSV "Name,Category" = Return []) as Hparse.
  { apply (proj1 upload_empty_rejected "Name,Category"); vm_compute; reflexivity. }
  split; [exact Hparse|].
  destruct (proj2 upload_empty_rejected "Name,Category" firstEnv sampleWorld Hparse)
    as (_ & _ & Hstore & Hcalls).
  split; [exact Hcalls | exact Hstore].
Defined.

(** ** The subscription callbacks *)

Section Subscription.

Lemma collect_items (querySnapshot : list Doc) (acc : list Item * list string) :
  (fold_left collectDoc querySnapshot acc).1 = acc.1 ++ map toItem querySnapshot.
Proof.
  revert acc. induction querySnapshot as [|d l IH]; intros acc; cbn [fold_left map].
  - now rewrite app_nil_r.
  - rewrite IH. cbn. now rewrite <- app_assoc.
Qed.

Lemma setAdd_elem (x y : string) (s : list string) :
  y ∈ setAdd x s <-> y = x \/ y ∈ s.
Proof.
  unfold setAdd. destruct (existsb (String.eqb x) s) eqn:E.
  - split; [tauto|]. intros [->|H]; [|assumption].
    apply existsb_exists in E as (z & Hz & Ez).
    apply String.eqb_eq in Ez. subst z. now apply list_elem_of_In.
  - rewrite elem_of_app, list_elem_of_singleton. tauto.
Qed.

Lemma setAdd_NoDup (x : string) (s : list string) :
  NoDup s -> NoDup (setAdd x s).
Proof.
  intros Hnd. unfold setAdd. destruct (existsb (String.eqb x) s) eqn:E; [assumption|].
  apply NoDup_app. repeat split.
  - assumption.
  - intros y Hy Hx. apply list_elem_of_singleton in Hx. subst y.
    assert (existsb (String.eqb x) s = true) as E'.
    { apply existsb_exists. exists x.
      split; [now apply list_elem_of_In | apply String.eqb_refl]. }
    congruence.
  - apply NoDup_singleton.
Qed.

(** The category list: the sentinel and the non-empty categories of the
    snapshot, each once. *)
Lemma collect_categories (querySnapshot : list Doc) (acc : list Item * list string) :
  NoDup acc.2 ->
  NoDup (fold_left collectDoc querySnapshot acc).2 /\
  forall c, c ∈ (fold_left collectDoc querySnapshot acc).2 <->
            c ∈ acc.2 \/
            (c <> "" /\ exists d, d ∈ querySnapshot /\ category (docData d) = c).
Proof.
  revert acc. induction querySnapshot as [|d l IH]; intros acc Hnd; cbn [fold_left].
  - split; [assumption|]. intros c. split; [tauto|].
    intros [H|(_ & d & Hd & _)]; [assumption|]. now apply elem_of_nil in Hd.
  - destruct (IH (collectDoc acc d)) as [Hnd' Hin].
    { cbn. destruct (truthy _); [now apply setAdd_NoDup | assumption]. }
    split; [assumption|]. intros c. rewrite Hin. cbn [collectDoc snd].
    destruct (truthy (category (docData d))) eqn:Ht.
    + apply truthy_true in Ht. rewrite setAdd_elem. split.
      * intros [[->|H]|(Hc & d' & Hd' & E)]; [right|tauto|right].
        -- split; [assumption|]. exists d. split; [apply elem_of_cons; now left | reflexivity].
        -- split; [assumption|]. exists d'. split; [apply elem_of_cons; now right | assumption].
      * intros [H|(Hc & d' & Hd' & E)]; [tauto|].
        apply elem_of_cons in Hd' as [->|Hd'].
        -- left. left. now symmetry.
        -- right. split; [assumption|]. now exists d'.
    + apply truthy_false in Ht. split.
      * intros [H|(Hc & d' & Hd' & E)]; [tauto|right].
        split; [assumption|]. exists d'. split; [apply elem_of_cons; now right | assumption].
      * intros [H|(Hc & d' & Hd' & E)]; [tauto|].
        apply elem_of_cons in Hd' as [->|Hd'].
        -- congruence.
        -- right. split; [assumption|]. now exists d'.
Qed.

End Subscription.

(** C8. When the subscription's error callback fires, an error message is
    shown and the loading flag is cleared, while the item list, the category
    list and everything derived from them stay as they were. *)
Theorem snapshot_error_keeps_items (st : AppState) :
  let st' := onSnapshotError st in
  error st' = Some "Failed to load items. Check console for details." /\
  isLoading st' = false /\
  items st' = items st /\
  categories st' = categories st /\
  render st' = render st.
Proof. repeat split. Qed.

(** C10. Every delivered snapshot rebuilds the item list and the category
    list from the snapshot alone, clears the loading flag and resets the
    error slot to null, whatever the slot held: the message left by a failed
    sign-in, by a failed upload or by a failed item update is gone after the
    next snapshot. *)
Theorem snapshot_clears_error (querySnapshot : list Doc) :
  (forall st : AppState,
     let st' := onSnapshotNext querySnapshot st in
     error st' = None /\
     isLoading st' = false /\
     items st' = map toItem querySnapshot /\
     NoDup (categories st') /\
     forall c, c ∈ categories st' <->
               c = "All" \/
               (c <> "" /\ exists d, d ∈ querySnapshot /\ category (docData d) = c)) /\
  (forall (st : AppState) (message : string),
     let st1 := onAuthStateChanged None (Throw message) st in
     error st1 = Some "Failed to authenticate. Please refresh." /\
     error (onSnapshotNext querySnapshot st1) = None) /\
  (forall (env : UploadEnv) (w : World),
     let w1 := handleFileUpload (Some ReadFailed) env w in
     error (app w1) = Some "Failed to read the file." /\
     error (onSnapshotNext querySnapshot (app w1)) = None) /\
  (forall (ref message : string) (currentStatus : bool) (w : World),
     let w1 := handleTakeItem ref currentStatus (Throw message) w in
     error (app w1) <> None /\
     error (onSnapshotNext querySnapshot (app w1)) = None).
Proof.
  repeat split.
  - unfold onSnapshotNext. cbn [items setError setIsLoading setCategories setItems].
    now rewrite collect_items.
  - apply collect_categories. cbn. apply NoDup_singleton.
  - unfold onSnapshotNext. cbn [categories setError setIsLoading setCategories setItems].
    intros Hc. apply collect_categories in Hc; [|apply NoDup_singleton].
    cbn [snd] in Hc. now rewrite list_elem_of_singleton in Hc.
  - unfold onSnapshotNext. cbn [categories setError setIsLoading setCategories setItems].
    intros Hc. apply collect_categories; [apply NoDup_singleton|].
    cbn [snd]. now rewrite list_elem_of_singleton.
  - unfold handleTakeItem.
    destruct (negb (truthyOpt (userId (app w)))); [discriminate|].
    unfold tryCatch, updateDoc. cbn. discriminate.
Qed.

(** C9. With a session identity, a take/return interaction on an existing
    item sends one update that writes the negation of the passed value to the
    [taken] field and leaves the name and the category alone; a second
    interaction passing the value just written writes the first passed value
    back, so the item's [taken] value is the original one again.  Without a
    session identity no request is sent, the collection is unchanged and an
    authorization error is shown. *)
Theorem take_twice_restores :
  (forall (ref : string) (currentStatus : bool) (d : ItemRecord) (w : World),
     truthyOpt (userId (app w)) = true ->
     store w !! ref = Some d ->
     let w1 := handleTakeItem ref currentStatus (Return tt) w in
     let w2 := handleTakeItem ref (negb currentStatus) (Return tt) w1 in
     calls w1 = calls w ++ [CallUpdateDoc ref (negb currentStatus)] /\
     store w1 = <[ref := mkRecord (name d) (category d) (negb currentStatus)]> (store w) /\
     calls w2 = calls w1 ++ [CallUpdateDoc ref currentStatus] /\
     store w2 = <[ref := mkRecord (name d) (category d) currentStatus]> (store w) /\
     (taken d = currentStatus -> store w2 = store w)) /\
  (forall (ref : string) (currentStatus : bool) (result : Outcome unit) (w : World),
     userId (app w) = None ->
     let w' := handleTakeItem ref currentStatus result w in
     calls w' = calls w /\
     store w' = store w /\
     error (app w') = Some "You must be signed in to take an item.").
Proof.
  split.
  - intros ref b d w Huser Hd. cbv zeta.
    assert (handleTakeItem ref b (Return tt) w =
            mkWorld (app w) (<[ref := withTaken (negb b) d]> (store w))
              (calls w ++ [CallUpdateDoc ref (negb b)])) as E1.
    { run_handler. rewrite Huser. cbn. now rewrite Hd. }
    rewrite E1.
    assert (handleTakeItem ref (negb b) (Return tt)
              (mkWorld (app w) (<[ref := withTaken (negb b) d]> (store w))
                 (calls w ++ [CallUpdateDoc ref (negb b)])) =
            mkWorld (app w) (<[ref := withTaken b d]> (store w))
              ((calls w ++ [CallUpdateDoc ref (negb b)]) ++ [CallUpdateDoc ref b])) as E2.
    { run_handler. rewrite Huser. cbn. rewrite lookup_insert_eq, insert_insert_eq.
      now rewrite negb_involutive. }
    rewrite E2. cbn [store calls]. repeat split.
    intros <-. apply insert_id. rewrite Hd. now destruct d.
  - intros ref b result w Huser. unfold handleTakeItem. rewrite Huser.
    repeat split.
Qed.

Lemma take_twice_restores_witness :
  store (handleTakeItem "d1" false (Return tt)
           (handleTakeItem "d1" true (Return tt) signedIn)) = store signedIn /\
  calls (handleTakeItem "d1" true (Return tt) sampleWorld) = [].
Proof.
  split.
  - apply (proj1 take_twice_restores "d1" true (mkRecord "Old" "Cat" true) signedIn);
      reflexivity.
  - apply (proj2 take_twice_restores "d1" true (Return tt) sampleWorld).
    reflexivity.
Defined.

(** ** The derived view *)

Section ViewFacts.

Lemma Kept_filter {A : Type} (P : A -> Prop) (f : A -> bool) (l : list A) :
  (forall x, f x = true <-> P x) -> Kept P l (List.filter f l).
Proof.
  intros Hf. induction l as [|x l IH]; cbn [List.filter]; [constructor|].
  destruct (f x) eqn:E.
  - apply Kept_keep; [now apply Hf | assumption].
  - apply Kept_drop; [|assumption]. rewrite <- Hf. congruence.
Qed.

Lemma Kept_all {A : Type} (P : A -> Prop) (l : list A) :
  (forall x, P x) -> Kept P l l.
Proof. intros HP. induction l; constructor; auto. Qed.

(** [Kept] determines its result. *)
Lemma Kept_functional {A : Type} (P : A -> Prop) (l l1 l2 : list A) :
  Kept P l l1 -> Kept P l l2 -> l1 = l2.
Proof.
  intros H1. revert l2.
  induction H1 as [|x l l1 Hx _ IH|x l l1 Hx _ IH]; intros l2 H2;
    inversion H2; subst; try contradiction; auto.
  f_equal. auto.
Qed.

Lemma categoryFilteredItems_Kept (l : list Item) (selection : string) :
  Kept (inCategory selection) l (categoryFilteredItems l selection).
Proof.
  unfold categoryFilteredItems, inCategory.
  destruct (String.eqb_spec selection "All") as [->|Hne].
  - apply Kept_all. now left.
  - apply Kept_filter. intros item. rewrite String.eqb_eq. tauto.
Qed.

Lemma displayedItems_Kept (l : list Item) (text : string) :
  Kept (matchesSearch text) l (displayedItems l text).
Proof.
  unfold displayedItems, matchesSearch.
  destruct (truthy text) eqn:Ht; cbn [negb].
  - apply truthy_true in Ht. apply Kept_filter. intros item.
    rewrite includes_spec. tauto.
  - apply truthy_false in Ht. apply Kept_all. now left.
Qed.

Lemma count_taken (l : list Item) :
  length (List.filter (fun item : Item => taken item) l) =
  length (filter (fun item : Item => taken item = true) l).
Proof.
  induction l as [|x l IH]; [reflexivity|].
  rewrite filter_cons. cbn [List.filter].
  destruct (taken x); cbn.
  - rewrite decide_True by reflexivity. cbn. now rewrite IH.
  - rewrite decide_False by discriminate. assumption.
Qed.

Lemma count_split (l : list Item) :
  length l =
  length (filter (fun item : Item => taken item = true) l) +
  length (filter (fun item : Item => taken item = false) l).
Proof.
  induction l as [|x l IH]; [reflexivity|].
  rewrite !filter_cons. destruct (taken x) eqn:E.
  - rewrite decide_True, decide_False by congruence. cbn. lia.
  - rewrite decide_False, decide_True by congruence. cbn. lia.
Qed.

End ViewFacts.

(** C5. The dashboard counts come from the category-filtered list alone:
    [total] is its length, [taken] the number of its items that are taken,
    [notTaken] their difference, which is the number of its items that are
    not taken; the search text has no influence on them.  With two items of
    category A, one of them taken, and one item of category B, selecting A
    gives 2, 1 and 1 for every search text. *)
Theorem dashboard_ignores_search (st : AppState) :
  let filtered := categoryFilteredItems (items st) (selectedCategory st) in
  let counts := stats (render st) in
  Kept (inCategory (selectedCategory st)) (items st) filtered /\
  Stats.total counts = Z.of_nat (length filtered) /\
  Stats.taken counts =
    Z.of_nat (length (filter (fun item : Item => taken item = true) filtered)) /\
  Stats.notTaken counts = (Stats.total counts - Stats.taken counts)%Z /\
  Stats.notTaken counts =
    Z.of_nat (length (filter (fun item : Item => taken item = false) filtered)) /\
  (forall text : string, stats (render (setSearchQuery text st)) = counts) /\
  (forall text : string,
     stats (render (setSearchQuery text
                      (setSelectedCategory "A" (setItems exampleItems st))))
     = Stats.mk 2 1 1).
Proof.
  cbv zeta. repeat split.
  - apply categoryFilteredItems_Kept.
  - cbn. now rewrite count_taken.
  - cbn. rewrite count_taken.
    rewrite (count_split (categoryFilteredItems (items st) (selectedCategory st))) at 1.
    lia.
Qed.

(** C6. The displayed list is the result of two stages.  Stage 1 keeps
    exactly the items of the list whose category equals the selection, and
    all of them when the selection is All; stage 2 keeps exactly the items of
    stage 1 whose lowercased name contains the lowercased search text as a
    substring, and all of them when the search text is empty. *)
Theorem displayed_two_stage (st : AppState) :
  let stage1 := categoryFilteredItems (items st) (selectedCategory st) in
  let stage2 := displayedItems stage1 (searchQuery st) in
  displayed (render st) = stage2 /\
  Kept (inCategory (selectedCategory st)) (items st) stage1 /\
  Kept (matchesSearch (searchQuery st)) stage1 stage2 /\
  categoryFilteredItems (items st) "All" = items st /\
  displayedItems stage1 "" = stage1.
Proof.
  cbv zeta. repeat split.
  - apply categoryFilteredItems_Kept.
  - apply displayedItems_Kept.
Qed.

(** * Further properties of the parser *)

Section Trim.

Lemma trimEnd_keep (c : ascii) (s : string) :
  isWhiteSpace c = false -> trimEnd (String c s) = String c (trimEnd s).
Proof.
  intros Hc. cbn [trimEnd]. rewrite Hc. now destruct (trimEnd s).
Qed.

Lemma trimEnd_idempotent (s : string) : trimEnd (trimEnd s) = trimEnd s.
Proof.
  induction s as [|c s IH]; [reflexivity|].
  cbn [trimEnd]. destruct (trimEnd s) as [|d t] eqn:E.
  - destruct (isWhiteSpace c) eqn:Hc; [reflexivity|].
    cbn [trimEnd]. now rewrite Hc.
  - cbn [trimEnd] in *. now rewrite IH.
Qed.

Lemma trimStart_shape (s : string) :
  trimStart s = "" \/
  exists c t, trimStart s = String c t /\ isWhiteSpace c = false.
Proof.
  induction s as [|c s IH]; [now left|].
  cbn [trimStart]. destruct (isWhiteSpace c) eqn:Hc; [exact IH|].
  right. now exists c, s.
Qed.

Lemma trim_idempotent (s : string) : trim (trim s) = trim s.
Proof.
  unfold trim. destruct (trimStart_shape s) as [->|(c & t & -> & Hc)]; [reflexivity|].
  rewrite (trimEnd_keep c t Hc). cbn [trimStart]. rewrite Hc.
  rewrite <- (trimEnd_keep c t Hc). apply trimEnd_idempotent.
Qed.

End Trim.

Section ParserRows.

Variables nameIndex categoryIndex : nat.

(** A line adds at most one record, after the records already there. *)
Lemma parseLine_push (line : string) (items : list ItemRecord) :
  parseLine nameIndex categoryIndex line items = items ++ parseLine nameIndex categoryIndex line [].
Proof.
  unfold parseLine. destruct (negb (truthy line)); [now rewrite app_nil_r|].
  match goal with |- context [if truthy ?n then _ else _] => destruct (truthy n) end;
    [reflexivity | now rewrite app_nil_r].
Qed.

Lemma parseLines_push (lines : list string) (items : list ItemRecord) :
  parseLines nameIndex categoryIndex lines items = items ++ parseLines nameIndex categoryIndex lines [].
Proof.
  revert items. induction lines as [|line lines IH]; intros items; cbn [parseLines].
  - now rewrite app_nil_r.
  - rewrite IH, (IH (parseLine nameIndex categoryIndex line [])), parseLine_push.
    now rewrite app_assoc.
Qed.

Lemma parseLines_app (lines1 lines2 : list string) :
  parseLines nameIndex categoryIndex (lines1 ++ lines2) [] = parseLines nameIndex categoryIndex lines1 [] ++ parseLines nameIndex categoryIndex lines2 [].
Proof.
  induction lines1 as [|line lines1 IH]; [reflexivity|].
  rewrite <- app_comm_cons. cbn [parseLines].
  rewrite (parseLines_push (lines1 ++ lines2)), IH.
  rewrite (parseLines_push lines1 (parseLine nameIndex categoryIndex line [])).
  now rewrite app_assoc.
Qed.

Lemma parseLines_nonEmpty (lines : list string) (items : list ItemRecord) :
  parseLines nameIndex categoryIndex (nonEmptyLines lines) items = parseLines nameIndex categoryIndex lines items.
Proof.
  revert items. induction lines as [|line lines IH]; intros items; [reflexivity|].
  unfold nonEmptyLines in *. cbn [List.filter parseLines].
  destruct (truthy line) eqn:Ht.
  - cbn [parseLines]. apply IH.
  - rewrite IH. unfold parseLine. now rewrite Ht.
Qed.

Lemma parseLine_length (line : string) :
  length (parseLine nameIndex categoryIndex line []) <= 1.
Proof.
  unfold parseLine. destruct (negb (truthy line)); [cbn; lia|].
  match goal with |- context [if truthy ?n then _ else _] => destruct (truthy n) end;
    cbn; lia.
Qed.

Lemma parseLines_length (lines : list string) :
  length (parseLines nameIndex categoryIndex lines []) <= length lines.
Proof.
  induction lines as [|line lines IH]; [reflexivity|].
  cbn [parseLines]. rewrite parseLines_push, length_app.
  pose proof (parseLine_length line). cbn [length]. lia.
Qed.

(** Every record the parseLines nameIndex categoryIndex adds is normalised. *)
Lemma parseLines_trimmed (lines : list string) (items : list ItemRecord) :
  Forall (fun r => trim (name r) = name r /\ trim (category r) = category r) items ->
  Forall (fun r => trim (name r) = name r /\ trim (category r) = category r)
    (parseLines nameIndex categoryIndex lines items).
Proof.
  revert items. induction lines as [|line lines IH]; intros items Hitems.
  - exact Hitems.
  - cbn [parseLines]. apply IH. unfold parseLine.
    destruct (negb (truthy line)); [assumption|].
    match goal with |- context [if truthy ?n then _ else _] =>
      destruct (truthy n) eqn:Hname end; [|assumption].
    apply Forall_app. split; [assumption|].
    constructor; [|constructor]. cbn [name category]. split.
    + destruct (truthyOpt (_ !! nameIndex)); [apply trim_idempotent | reflexivity].
    + destruct (truthyOpt (_ !! categoryIndex)); [apply trim_idempotent | reflexivity].
Qed.

End ParserRows.

(** The parser's result is a function of the header row and the data rows. *)
Lemma parseCSV_rows (csvText : string) (items : list ItemRecord) :
  parseCSV csvText = Return items <->
  exists nameIndex categoryIndex,
    indexOf (map (fun h => toLowerCase (trim h)) (split comma (headerLine csvText)))
      "name" = Some nameIndex /\
    indexOf (map (fun h => toLowerCase (trim h)) (split comma (headerLine csvText)))
      "category" = Some categoryIndex /\
    items = parseLines nameIndex categoryIndex (dataLines csvText) [].
Proof.
  unfold parseCSV, dataLines.
  destruct (parseCSV_header csvText) as [rows ->]. cbn [tl].
  destruct (indexOf _ "name") as [i|]; [destruct (indexOf _ "category") as [j|]|].
  - split; [intros [= <-]; eauto|]. now intros (i' & j' & [= <-] & [= <-] & ->).
  - split; [discriminate|]. now intros (i' & j' & _ & [=] & _).
  - split; [discriminate|]. now intros (i' & j' & [=] & _).
Qed.

Lemma parseCSV_unfold (csvText : string) :
  parseCSV csvText =
  let headers :=
    map (fun h => toLowerCase (trim h)) (split comma (headerLine csvText)) in
  match indexOf headers "name", indexOf headers "category" with
  | Some nameIndex, Some categoryIndex =>
      Return (parseLines nameIndex categoryIndex (dataLines csvText) [])
  | _, _ => Throw missingColumnsMessage
  end.
Proof.
  unfold parseCSV, dataLines.
  destruct (parseCSV_header csvText) as [rows ->]. reflexivity.
Qed.

(** X1. Every record the parser returns has a non-empty name, is not taken,
    and its name and its category carry no surrounding white space. *)
Theorem parseCSV_records_normalised (csvText : string) (items : list ItemRecord) :
  parseCSV csvText = Return items ->
  Forall (fun r => name r <> "" /\ taken r = false /\
                   trim (name r) = name r /\ trim (category r) = category r) items.
Proof.
  intros Hparse.
  pose proof (parseCSV_named csvText items Hparse) as Hnamed.
  apply parseCSV_rows in Hparse as (i & j & _ & _ & ->).
  pose proof (parseLines_trimmed i j (dataLines csvText) [] ltac:(constructor)) as Htrim.
  rewrite Forall_forall in *. intros r Hr.
  destruct (Hnamed r Hr), (Htrim r Hr). tauto.
Qed.

Lemma parseCSV_records_normalised_witness :
  Forall (fun r => name r <> "" /\ taken r = false /\
                   trim (name r) = name r /\ trim (category r) = category r)
    [mkRecord "A b" "Cat1" false; mkRecord "B" "Uncategorized" false].
Proof.
  apply (parseCSV_records_normalised (csv ["Name , Category"; "  A b , Cat1 "; " B"])).
  vm_compute. reflexivity.
Defined.

(** X2. Empty data lines are skipped: two texts with the same header row
    and the same non-empty data lines give the same result. *)
Theorem parseCSV_skips_empty_lines (csvText1 csvText2 : string) :
  headerLine csvText1 = headerLine csvText2 ->
  nonEmptyLines (dataLines csvText1) = nonEmptyLines (dataLines csvText2) ->
  parseCSV csvText1 = parseCSV csvText2.
Proof.
  intros Hheader Hlines. rewrite !parseCSV_unfold, Hheader. cbv zeta.
  destruct (indexOf _ "name") as [i|]; [|reflexivity].
  destruct (indexOf _ "category") as [j|]; [|reflexivity].
  now rewrite <- (parseLines_nonEmpty i j (dataLines csvText1)), Hlines,
    parseLines_nonEmpty.
Qed.

Lemma parseCSV_skips_empty_lines_witness :
  parseCSV (csv ["name,category"; ""; "A,x"; ""; ""; "B,y"]) =
  parseCSV (csv ["name,category"; "A,x"; "B,y"]).
Proof.
  apply parseCSV_skips_empty_lines; vm_compute; reflexivity.
Defined.

(** X3. The parser returns at most one record per non-empty data line. *)
Theorem parseCSV_count_bound (csvText : string) (items : list ItemRecord) :
  parseCSV csvText = Return items ->
  length items <= length (nonEmptyLines (dataLines csvText)).
Proof.
  intros Hparse. apply parseCSV_rows in Hparse as (i & j & _ & _ & ->).
  rewrite <- parseLines_nonEmpty. apply parseLines_length.
Qed.

Lemma parseCSV_count_bound_witness :
  length [mkRecord "A" "x" false] <=
  length (nonEmptyLines (dataLines (csv ["name,category"; "A,x"; ""; ",y"]))).
Proof.
  apply (parseCSV_count_bound (csv ["name,category"; "A,x"; ""; ",y"])).
  vm_compute. reflexivity.
Defined.

(** X4. Data rows are parsed independently of one another: when the data
    rows of a text are those of a first text followed by those of a second,
    under the same header row, its records are the records of the first
    followed by the records of the second. *)
Theorem parseCSV_rows_independent
    (csvText csvText1 csvText2 : string) (items1 items2 : list ItemRecord) :
  headerLine csvText = headerLine csvText1 ->
  headerLine csvText = headerLine csvText2 ->
  dataLines csvText = dataLines csvText1 ++ dataLines csvText2 ->
  parseCSV csvText1 = Return items1 ->
  parseCSV csvText2 = Return items2 ->
  parseCSV csvText = Return (items1 ++ items2).
Proof.
  intros H1 H2 Hlines Hp1 Hp2.
  apply parseCSV_rows in Hp1 as (i & j & Hi & Hj & ->).
  apply parseCSV_rows in Hp2 as (i' & j' & Hi' & Hj' & ->).
  rewrite <- H1 in Hi, Hj. rewrite <- H2 in Hi', Hj'.
  assert (i' = i) as -> by congruence. assert (j' = j) as -> by congruence.
  apply parseCSV_rows. exists i, j. repeat split; try assumption.
  now rewrite Hlines, parseLines_app.
Qed.

Lemma parseCSV_rows_independent_witness :
  parseCSV (csv ["category,name"; "x,A"; "y,B"; ",C"]) =
  Return ([mkRecord "A" "x" false] ++
          [mkRecord "B" "y" false; mkRecord "C" "Uncategorized" false]).
Proof.
  apply (parseCSV_rows_independent _
           (csv ["category,name"; "x,A"]) (csv ["category,name"; "y,B"; ",C"]));
    vm_compute; reflexivity.
Defined.

(** X5. White space and line breaks around the whole text are ignored. *)
Theorem parseCSV_ignores_surrounding_space (csvText : string) :
  parseCSV (trim csvText) = parseCSV csvText.
Proof. unfold parseCSV. now rewrite trim_idempotent. Qed.

(** * Further properties of the upload workflow *)

(** X6. Whatever the file reader and the backend answer, an upload ends
    with the uploading indicator reset and with exactly one message: either
    an error, with no confirmation and the collection as it was, or no error
    and the confirmation that counts the parsed records. *)
Theorem upload_ends_with_one_message (read : FileRead) (env : UploadEnv) (w : World) :
  let w' := handleFileUpload (Some read) env w in
  uploading (app w') = false /\
  ((exists message,
      error (app w') = Some message /\ uploadSuccess (app w') = None /\
      store w' = store w) \/
   (exists text parsed,
      read = ReadOk text /\ parseCSV text = Return parsed /\ parsed <> [] /\
      error (app w') = None /\
      uploadSuccess (app w') =
        Some ("Successfully uploaded " +:+ decimal (length parsed) +:+ " items!"))).
Proof.
  cbv zeta. destruct read as [text|].
  - rewrite handleFileUpload_read.
    destruct (parseCSV text) as [[|p ps]|message] eqn:Hparse.
    + split; [reflexivity|]. left. eexists. repeat split.
    + destruct (getDocsResult env) as [querySnapshot|message].
      * destruct (commitResult env) as [[]|message].
        -- split; [reflexivity|]. right. exists text, (p :: ps).
           repeat split; try assumption. discriminate.
        -- split; [reflexivity|]. left. eexists. repeat split.
      * split; [reflexivity|]. left. eexists. repeat split.
    + split; [reflexivity|]. left. eexists. repeat split.
  - split; [reflexivity|]. left. eexists. repeat split.
Qed.

(** X7. Neither an upload nor a take/return interaction writes the
    in-memory mirror or the filter state: the items, the categories, the
    selection, the search text, the session and the loading flag are as
    before, whatever the backend answers. *)
Theorem handlers_keep_mirror :
  (forall (file : option FileRead) (env : UploadEnv) (w : World),
     let st' := app (handleFileUpload file env w) in
     items st' = items (app w) /\ categories st' = categories (app w) /\
     selectedCategory st' = selectedCategory (app w) /\
     searchQuery st' = searchQuery (app w) /\
     userId st' = userId (app w) /\ isAuthReady st' = isAuthReady (app w) /\
     isLoading st' = isLoading (app w)) /\
  (forall (ref : string) (currentStatus : bool) (result : Outcome unit) (w : World),
     let st' := app (handleTakeItem ref currentStatus result w) in
     items st' = items (app w) /\ categories st' = categories (app w) /\
     selectedCategory st' = selectedCategory (app w) /\
     searchQuery st' = searchQuery (app w) /\
     userId st' = userId (app w) /\ isAuthReady st' = isAuthReady (app w) /\
     isLoading st' = isLoading (app w)).
Proof.
  split.
  - intros [[text|]|] env w; cbv zeta; [|repeat split..].
    rewrite handleFileUpload_read.
    destruct (parseCSV text) as [[|p ps]|message]; [repeat split| |repeat split].
    destruct (getDocsResult env) as [querySnapshot|message]; [|repeat split].
    destruct (commitResult env) as [[]|message]; repeat split.
  - intros ref b result w. cbv zeta. run_handler.
    destruct (truthyOpt (userId (app w))); cbn; [|repeat split].
    destruct result as [[]|message]; [|repeat split].
    destruct (store w !! ref); repeat split.
Qed.

(** X8. The requests of an upload: none at all, or a single fetch that was
    rejected, or a fetch that succeeded followed by a single commit of the
    batch built from the fetched snapshot and a non-empty list of records. *)
Theorem upload_requests (file : option FileRead) (env : UploadEnv) (w : World) :
  let w' := handleFileUpload file env w in
  (calls w' = calls w /\ store w' = store w) \/
  (exists message,
     getDocsResult env = Throw message /\
     calls w' = calls w ++ [CallGetDocs] /\ store w' = store w) \/
  (exists querySnapshot text parsed,
     file = Some (ReadOk text) /\ parseCSV text = Return parsed /\ parsed <> [] /\
     getDocsResult env = Return querySnapshot /\
     calls w' = calls w ++
       [CallGetDocs; CallCommit (buildBatch env querySnapshot parsed)]).
Proof.
  cbv zeta. destruct file as [[text|]|]; [|now left..].
  rewrite handleFileUpload_read.
  destruct (parseCSV text) as [[|p ps]|message] eqn:Hparse; [now left| |now left].
  destruct (getDocsResult env) as [querySnapshot|message] eqn:Hget.
  - right. right. exists querySnapshot, text, (p :: ps).
    repeat split; try assumption; try discriminate.
    cbv zeta. rewrite <- app_assoc.
    now destruct (commitResult env) as [[]|message].
  - right. left. now exists message.
Qed.

Section BatchLookup.

Variables (env : UploadEnv) (querySnapshot : list Doc) (parsed : list ItemRecord).
Variable c : gmap string ItemRecord.
Hypothesis distinct : NoDup (newIds env (length parsed)).

Lemma buildBatch_apply :
  applyBatch (buildBatch env querySnapshot parsed) c =
  list_to_map (zip (newIds env (length parsed)) parsed) ∪
  applyBatch (map BatchDelete (map docId querySnapshot)) c.
Proof.
  rewrite buildBatch_eq, applyBatch_app, applyBatch_sets by now rewrite newIds_zip.
  now rewrite map_map.
Qed.

Lemma newIds_lookup (k : nat) :
  k < length parsed -> newIds env (length parsed) !! k = Some (autoId env k).
Proof.
  intros Hk. unfold newIds. change map with (@fmap list _) .
  rewrite list_lookup_fmap.
  assert (seq 0 (length parsed) !! k = Some k) as -> by now apply lookup_seq.
  reflexivity.
Qed.

Lemma buildBatch_new (k : nat) (item : ItemRecord) :
  parsed !! k = Some item ->
  applyBatch (buildBatch env querySnapshot parsed) c !! autoId env k = Some item.
Proof.
  intros Hk. rewrite buildBatch_apply. apply lookup_union_Some_l.
  apply elem_of_list_to_map_1; [now rewrite newIds_zip|].
  apply list_elem_of_lookup. exists k.
  rewrite lookup_zip_with, newIds_lookup by now apply lookup_lt_Some in Hk.
  cbn. now rewrite Hk.
Qed.

Lemma buildBatch_old (ref : string) :
  ref ∉ newIds env (length parsed) ->
  applyBatch (buildBatch env querySnapshot parsed) c !! ref =
  if decide (ref ∈ map docId querySnapshot) then None else c !! ref.
Proof.
  intros Hnew. rewrite buildBatch_apply, lookup_union_r.
  - apply applyBatch_deletes_lookup.
  - apply not_elem_of_list_to_map. now rewrite newIds_zip.
Qed.

End BatchLookup.

(** X9. The collection after a successful upload, document by document:
    the [k]-th parsed record is stored under the [k]-th new identifier; a
    document that was fetched is gone; and a document that was not fetched
    (one created after the fetch) is still there, unchanged. *)
Theorem upload_store_lookup
    (text : string) (parsed : list ItemRecord) (env : UploadEnv)
    (querySnapshot : list Doc) (w : World) :
  parseCSV text = Return parsed -> parsed <> [] ->
  getDocsResult env = Return querySnapshot -> commitResult env = Return tt ->
  NoDup (newIds env (length parsed)) ->
  let w' := handleFileUpload (Some (ReadOk text)) env w in
  (forall k item, parsed !! k = Some item -> store w' !! autoId env k = Some item) /\
  (forall ref, ref ∉ newIds env (length parsed) ->
               ref ∈ map docId querySnapshot -> store w' !! ref = None) /\
  (forall ref, ref ∉ newIds env (length parsed) ->
               ref ∉ map docId querySnapshot -> store w' !! ref = store w !! ref).
Proof.
  intros Hparse Hne Hget Hcommit Hnd w'. subst w'.
  rewrite (upload_success text parsed Hparse Hne env querySnapshot w Hget Hcommit).
  cbn [store]. repeat split.
  - intros k item Hk. now apply buildBatch_new.
  - intros ref Hnew Hin. rewrite buildBatch_old by assumption.
    now rewrite decide_True.
  - intros ref Hnew Hin. rewrite buildBatch_old by assumption.
    now rewrite decide_False.
Qed.

Lemma upload_store_lookup_witness :
  store (handleFileUpload (Some (ReadOk sampleText)) firstEnv racedWorld) !! "new1"
    = Some (mkRecord "B" "Uncategorized" false) /\
  store (handleFileUpload (Some (ReadOk sampleText)) firstEnv racedWorld) !! "d1"
    = None /\
  store (handleFileUpload (Some (ReadOk sampleText)) firstEnv racedWorld) !! "late"
    = Some (mkRecord "Late" "Cat" false).
Proof.
  assert (parseCSV sampleText = Return sampleParsed) as Hparse
    by (vm_compute; reflexivity).
  assert (sampleParsed <> []) as Hne by discriminate.
  assert (NoDup (newIds firstEnv (length sampleParsed))) as Hnd.
  { vm_compute. repeat constructor; rewrite ?elem_of_cons, ?elem_of_nil;
      intuition discriminate. }
  assert (forall ref, ref <> "new0" -> ref <> "new1" ->
                      ref ∉ newIds firstEnv (length sampleParsed)) as Hold.
  { intros ref H0 H1 Hin. vm_compute in Hin.
    apply elem_of_cons in Hin as [->|Hin]; [now apply H0|].
    apply elem_of_cons in Hin as [->|Hin]; [now apply H1|].
    now apply elem_of_nil in Hin. }
  destruct (upload_store_lookup sampleText sampleParsed firstEnv _ racedWorld
              Hparse Hne eq_refl eq_refl Hnd) as (Hnew & Hgone & Hkept).
  split; [|split].
  - apply (Hnew 1). reflexivity.
  - apply Hgone; [apply Hold; discriminate|].
    cbn. apply elem_of_cons. now left.
  - rewrite Hkept; [reflexivity|apply Hold; discriminate|].
    cbn. intros Hin. apply elem_of_cons in Hin as [Hin|Hin]; [discriminate|].
    now apply elem_of_nil in Hin.
Defined.

(** * The mirror after a snapshot *)

Section Snapshots.

Lemma snapshotOf_list (c : gmap string ItemRecord) (querySnapshot : list Doc) :
  snapshotOf c querySnapshot ->
  c = list_to_map (map (fun d => (docId d, docData d)) querySnapshot).
Proof.
  intros [Hnd Hin]. apply map_eq. intros ref. apply option_eq. intros data.
  rewrite <- Hin, <- elem_of_list_to_map.
  - change map with (@fmap list _). rewrite list_elem_of_fmap. split.
    + intros H. now exists (mkDoc ref data).
    + intros ([ref' data'] & [= -> ->] & H). exact H.
  - change map with (@fmap list _) in *. now rewrite <- list_fmap_compose.
Qed.

Lemma snapshotOf_length (c : gmap string ItemRecord) (querySnapshot : list Doc) :
  snapshotOf c querySnapshot -> length querySnapshot = size c.
Proof.
  intros Hsnap. rewrite (snapshotOf_list c querySnapshot Hsnap).
  rewrite map_size_list_to_map, length_map; [reflexivity|].
  destruct Hsnap as [Hnd _].
  change map with (@fmap list _) in *. now rewrite <- list_fmap_compose.
Qed.

Lemma docsOf_snapshotOf (c : gmap string ItemRecord) : snapshotOf c (docsOf c).
Proof.
  unfold docsOf. split.
  - rewrite map_map. cbn. apply NoDup_fst_map_to_list.
  - intros ref data. rewrite <- elem_of_map_to_list.
    change map with (@fmap list _). rewrite list_elem_of_fmap. split.
    + intros ([ref' data'] & [= -> ->] & H). exact H.
    + intros H. now exists (ref, data).
Qed.

Lemma filter_nonempty {A : Type} (f : A -> bool) (l : list A) :
  List.filter f l <> [] <-> exists x, x ∈ l /\ f x = true.
Proof.
  induction l as [|y l IH]; cbn [List.filter].
  - split; [congruence|]. intros (x & Hx & _). now apply elem_of_nil in Hx.
  - destruct (f y) eqn:E.
    + split; [|discriminate]. intros _. exists y. split; [apply elem_of_cons; now left|assumption].
    + rewrite IH. split; intros (x & Hx & Hf).
      * exists x. split; [apply elem_of_cons; now right | assumption].
      * apply elem_of_cons in Hx as [->|Hx]; [congruence|]. now exists x.
Qed.

Lemma filter_none {A : Type} (f : A -> bool) (l : list A) :
  Forall (fun x => f x = false) l -> List.filter f l = [].
Proof.
  induction 1 as [|x l Hx _ IH]; [reflexivity|].
  cbn [List.filter]. now rewrite Hx.
Qed.

Lemma setAdd_extends (x : string) (s : list string) :
  exists more, setAdd x s = s ++ more.
Proof.
  unfold setAdd. destruct (existsb _ s); [exists []; now rewrite app_nil_r | now exists [x]].
Qed.

Lemma collect_categories_extends (querySnapshot : list Doc)
    (acc : list Item * list string) :
  exists more, (fold_left collectDoc querySnapshot acc).2 = acc.2 ++ more.
Proof.
  revert acc. induction querySnapshot as [|d l IH]; intros acc; cbn [fold_left].
  - exists []. now rewrite app_nil_r.
  - destruct (IH (collectDoc acc d)) as [more ->]. cbn [collectDoc snd].
    destruct (truthy (category (docData d))); [|now exists more].
    destruct (setAdd_extends (category (docData d)) acc.2) as [more' ->].
    exists (more' ++ more). now rewrite app_assoc.
Qed.

End Snapshots.

(** X10. A snapshot replaces the mirror as a whole: what an earlier
    snapshot, or an earlier error, left in the item list, the category list,
    the loading flag and the error slot has no influence on the state after
    the next snapshot, and the selection, the search text, the session and
    the upload indicators pass through untouched. *)
Theorem snapshot_replaces_mirror (querySnapshot earlier : list Doc) (st : AppState) :
  onSnapshotNext querySnapshot (onSnapshotNext earlier st) =
    onSnapshotNext querySnapshot st /\
  onSnapshotNext querySnapshot (onSnapshotError st) = onSnapshotNext querySnapshot st /\
  let st' := onSnapshotNext querySnapshot st in
  selectedCategory st' = selectedCategory st /\ searchQuery st' = searchQuery st /\
  userId st' = userId st /\ isAuthReady st' = isAuthReady st /\
  uploading st' = uploading st /\ uploadSuccess st' = uploadSuccess st.
Proof. repeat split. Qed.

(** X11. The category buttons after a snapshot: All comes first, and a
    non-empty category other than All has a button exactly when selecting it
    shows at least one item. *)
Theorem category_chips (querySnapshot : list Doc) (st : AppState) :
  let st' := onSnapshotNext querySnapshot st in
  (exists more, categories st' = "All" :: more) /\
  (forall c : string,
     c <> "All" -> c <> "" ->
     (c ∈ categories st' <-> categoryFilteredItems (items st') c <> [])).
Proof.
  cbv zeta. split.
  - unfold onSnapshotNext. cbn [categories setError setIsLoading setCategories setItems].
    apply (collect_categories_extends querySnapshot ([], ["All"])).
  - intros c Hall Hc.
    unfold onSnapshotNext.
    cbn [categories items setError setIsLoading setCategories setItems].
    rewrite collect_items. cbn [fst app].
    destruct (collect_categories querySnapshot ([], ["All"])) as [_ Hin];
      [apply NoDup_singleton|].
    rewrite Hin. cbn [snd]. rewrite list_elem_of_singleton.
    unfold categoryFilteredItems.
    destruct (String.eqb_spec c "All") as [?|_]; [contradiction|].
    rewrite filter_nonempty. change map with (@fmap list _).
    split.
    + intros [?|(_ & d & Hd & E)]; [contradiction|].
      exists (toItem d). split; [now apply list_elem_of_fmap_2|].
      apply String.eqb_eq. exact E.
    + intros (item & Hitem & E). right. split; [assumption|].
      apply list_elem_of_fmap in Hitem as (d & -> & Hd).
      exists d. split; [assumption|]. now apply String.eqb_eq in E.
Qed.

Lemma category_chips_witness :
  "Cat1" ∈ categories
    (onSnapshotNext [mkDoc "a" (mkRecord "A" "Cat1" false);
                     mkDoc "b" (mkRecord "B" "" false)] initialState).
Proof.
  apply (proj2 (category_chips
                  [mkDoc "a" (mkRecord "A" "Cat1" false);
                   mkDoc "b" (mkRecord "B" "" false)] initialState) "Cat1");
    discriminate.
Defined.

(** X12. From upload to dashboard: after a successful replace-all upload
    of [n] parsed records, the next snapshot of the collection puts exactly
    [n] items into the mirror, each a parsed record that is not taken, and
    with All selected the dashboard shows [n] items, none taken. *)
Theorem upload_then_snapshot
    (text : string) (parsed : list ItemRecord) (env : UploadEnv)
    (fetched querySnapshot : list Doc) (w : World) :
  parseCSV text = Return parsed -> parsed <> [] ->
  getDocsResult env = Return fetched -> commitResult env = Return tt ->
  NoDup (newIds env (length parsed)) ->
  fetchedAll fetched (store w) ->
  let w' := handleFileUpload (Some (ReadOk text)) env w in
  snapshotOf (store w') querySnapshot ->
  let st := onSnapshotNext querySnapshot (app w') in
  length (items st) = length parsed /\
  Forall (fun item : Item => itemData item ∈ parsed /\ taken item = false) (items st) /\
  stats (render (setSelectedCategory "All" st)) =
    Stats.mk (Z.of_nat (length parsed)) 0 (Z.of_nat (length parsed)).
Proof.
  intros Hparse Hne Hget Hcommit Hnd Hall w' Hsnap st.
  assert (store w' = list_to_map (zip (newIds env (length parsed)) parsed) /\
          size (store w') = length parsed) as [Hstore Hsize].
  { subst w'.
    rewrite (upload_success text parsed Hparse Hne env fetched w Hget Hcommit).
    cbn [store]. now apply replace_all. }
  assert (items st = map toItem querySnapshot) as Hitems.
  { subst st. unfold onSnapshotNext.
    cbn [items setError setIsLoading setCategories setItems].
    now rewrite collect_items. }
  assert (Forall (fun item : Item => itemData item ∈ parsed /\ taken item = false)
            (items st)) as Hrecords.
  { rewrite Hitems. apply Forall_forall. intros item Hitem.
    change map with (@fmap list _) in Hitem.
    apply list_elem_of_fmap in Hitem as ([ref data] & -> & Hd).
    apply (proj2 Hsnap) in Hd. rewrite Hstore in Hd.
    apply elem_of_list_to_map_2, elem_of_zip_r in Hd. cbn.
    split; [assumption|].
    pose proof (parseCSV_named text parsed Hparse) as Hnamed.
    rewrite Forall_forall in Hnamed. now apply Hnamed. }
  assert (length (items st) = length parsed) as Hlen.
  { rewrite Hitems, length_map, (snapshotOf_length _ _ Hsnap). exact Hsize. }
  repeat split; try assumption.
  change (stats (render (setSelectedCategory "All" st)))
    with (dashboardStats (items st)).
  unfold dashboardStats. rewrite Hlen, filter_none.
  - cbn [length]. f_equal. lia.
  - eapply Forall_impl; [exact Hrecords|]. now intros item [_ ->].
Qed.

Lemma upload_then_snapshot_witness :
  stats (render (setSelectedCategory "All"
    (onSnapshotNext
       (docsOf (store (handleFileUpload (Some (ReadOk sampleText)) firstEnv sampleWorld)))
       (app (handleFileUpload (Some (ReadOk sampleText)) firstEnv sampleWorld)))))
  = Stats.mk 2 0 2.
Proof.
  assert (parseCSV sampleText = Return sampleParsed) as Hparse
    by (vm_compute; reflexivity).
  assert (sampleParsed <> []) as Hne by discriminate.
  assert (NoDup (newIds firstEnv (length sampleParsed))) as Hnd.
  { vm_compute. repeat constructor; rewrite ?elem_of_cons, ?elem_of_nil;
      intuition discriminate. }
  apply (upload_then_snapshot sampleText sampleParsed firstEnv _ _ sampleWorld
           Hparse Hne eq_refl eq_refl Hnd sampleWorld_fetched
           (docsOf_snapshotOf _)).
Defined.

(** * Further properties of the take/return interaction *)

Section TakeItem.

Variables (ref : string) (currentStatus : bool) (w : World).

(** The three ways the handler ends. *)
Lemma handleTakeItem_cases (result : Outcome unit) :
  let w' := handleTakeItem ref currentStatus result w in
  (truthyOpt (userId (app w)) = false /\ store w' = store w /\ calls w' = calls w /\
   error (app w') = Some "You must be signed in to take an item.") \/
  (truthyOpt (userId (app w)) = true /\
   (store w !! ref = None \/ exists message, result = Throw message) /\
   store w' = store w /\
   calls w' = calls w ++ [CallUpdateDoc ref (negb currentStatus)] /\
   error (app w') = Some "Failed to update item.") \/
  (exists d, truthyOpt (userId (app w)) = true /\ result = Return tt /\
   store w !! ref = Some d /\
   store w' = <[ref := withTaken (negb currentStatus) d]> (store w) /\
   calls w' = calls w ++ [CallUpdateDoc ref (negb currentStatus)] /\
   error (app w') = error (app w)).
Proof.
  cbv zeta. run_handler.
  destruct (truthyOpt (userId (app w))) eqn:Huser; cbn; [|left; repeat split].
  right. destruct result as [[]|message].
  - destruct (store w !! ref) as [d|] eqn:Hd.
    + right. exists d. repeat split.
    + left. repeat split. now left.
  - left. repeat split. right. now exists message.
Qed.

End TakeItem.

(** X13. A take/return interaction never creates or deletes a document and
    never changes a name or a category: whatever the backend answers, the
    collection has the same identifiers afterwards, every document other
    than the addressed one is unchanged, and the addressed one keeps its name
    and category. *)
Theorem take_keeps_documents
    (ref : string) (currentStatus : bool) (result : Outcome unit) (w : World) :
  let w' := handleTakeItem ref currentStatus result w in
  dom (store w') = dom (store w) /\
  (forall other, other <> ref -> store w' !! other = store w !! other) /\
  name <$> (store w' !! ref) = name <$> (store w !! ref) /\
  category <$> (store w' !! ref) = category <$> (store w !! ref).
Proof.
  cbv zeta.
  destruct (handleTakeItem_cases ref currentStatus w result)
    as [(_ & -> & _)|[(_ & _ & -> & _)|(d & _ & _ & Hd & -> & _)]];
    try (repeat split; fail).
  repeat split.
  - apply dom_insert_lookup_L. now rewrite Hd.
  - intros other Hne. now apply lookup_insert_ne.
  - now rewrite lookup_insert_eq, Hd.
  - now rewrite lookup_insert_eq, Hd.
Qed.

(** X14. With a session identity, when the update is rejected or the
    addressed document does not exist, one update request was sent, the
    collection is unchanged and the error [Failed to update item.] is
    shown. *)
Theorem take_failure
    (ref : string) (currentStatus : bool) (result : Outcome unit) (w : World) :
  truthyOpt (userId (app w)) = true ->
  (exists message, result = Throw message) \/ store w !! ref = None ->
  let w' := handleTakeItem ref currentStatus result w in
  store w' = store w /\
  calls w' = calls w ++ [CallUpdateDoc ref (negb currentStatus)] /\
  error (app w') = Some "Failed to update item.".
Proof.
  intros Huser Hfail. cbv zeta.
  destruct (handleTakeItem_cases ref currentStatus w result)
    as [(Hno & _)|[(_ & _ & Hs & Hc & He)|(d & _ & Hr & Hd & _)]].
  - congruence.
  - now repeat split.
  - destruct Hfail as [[message ->]|Hnone]; congruence.
Qed.

Lemma take_failure_witness :
  store (handleTakeItem "gone" false (Return tt) signedIn) = store signedIn /\
  error (app (handleTakeItem "d1" true (Throw "unavailable") signedIn))
    = Some "Failed to update item.".
Proof.
  split.
  - apply (take_failure "gone" false (Return tt) signedIn); [reflexivity|].
    right. reflexivity.
  - apply (take_failure "d1" true (Throw "unavailable") signedIn); [reflexivity|].
    left. now exists "unavailable".
Defined.

(** * The rendered rows and their buttons *)

(** X15. The button of a row does what its label says: with a session
    identity and the row's document in the collection, a click on a button
    labelled [Take Item] stores [taken = true] and a click on a button
    labelled [Return] stores [taken = false]; a row is dimmed exactly when
    its button reads [Return]. *)
Theorem row_button_does_what_it_says
    (item : Item) (showCategory : bool) (d : ItemRecord) (w : World) :
  truthyOpt (userId (app w)) = true ->
  store w !! itemId item = Some d ->
  let row := ItemRow item showCategory in
  let w' := clickRow row (Return tt) w in
  (buttonLabel row = "Take Item" /\ rowDimmed row = false /\
   store w' !! itemId item = Some (mkRecord (name d) (category d) true)) \/
  (buttonLabel row = "Return" /\ rowDimmed row = true /\
   store w' !! itemId item = Some (mkRecord (name d) (category d) false)).
Proof.
  intros Huser Hd. cbv zeta. unfold clickRow, ItemRow. cbn [onClick fst snd].
  destruct (handleTakeItem_cases (itemId item) (taken item) w (Return tt))
    as [(Hno & _)|[(_ & [Hnone|[message Hm]] & _)|(d' & _ & _ & Hd' & -> & _)]];
    try congruence.
  rewrite lookup_insert_eq. assert (d' = d) as -> by congruence.
  cbn [buttonLabel rowDimmed]. unfold withTaken.
  destruct (taken item); [right | left]; repeat split.
Qed.

Lemma row_button_does_what_it_says_witness :
  store (clickRow (ItemRow (mkItem "d1" (mkRecord "Old" "Cat" true)) true)
           (Return tt) signedIn) !! "d1"
  = Some (mkRecord "Old" "Cat" false).
Proof.
  destruct (row_button_does_what_it_says
              (mkItem "d1" (mkRecord "Old" "Cat" true)) true
              (mkRecord "Old" "Cat" true) signedIn eq_refl eq_refl)
    as [(Hlabel & _)|(_ & _ & Hstore)].
  - discriminate Hlabel.
  - exact Hstore.
Defined.

(** X16. The value written comes from the row, not from the collection: a
    second click on the same rendered row sends the same update again and
    leaves the collection as the first click left it, and a click on a row
    whose document already holds the negated value changes nothing. *)
Theorem repeated_click_writes_same_value
    (item : Item) (showCategory : bool) (d : ItemRecord) (w : World) :
  truthyOpt (userId (app w)) = true ->
  store w !! itemId item = Some d ->
  let row := ItemRow item showCategory in
  let w1 := clickRow row (Return tt) w in
  let w2 := clickRow row (Return tt) w1 in
  calls w2 = calls w ++ [CallUpdateDoc (itemId item) (negb (taken item));
                         CallUpdateDoc (itemId item) (negb (taken item))] /\
  store w2 = store w1 /\
  (taken d = negb (taken item) -> store w1 = store w).
Proof.
  intros Huser Hd. cbv zeta. unfold clickRow, ItemRow. cbn [onClick fst snd].
  assert (handleTakeItem (itemId item) (taken item) (Return tt) w =
          mkWorld (app w) (<[itemId item := withTaken (negb (taken item)) d]> (store w))
            (calls w ++ [CallUpdateDoc (itemId item) (negb (taken item))])) as ->.
  { run_handler. rewrite Huser. cbn. now rewrite Hd. }
  run_handler. rewrite Huser. cbn. rewrite lookup_insert_eq. cbn.
  rewrite insert_insert_eq, <- app_assoc. repeat split.
  intros Ht. apply insert_id. rewrite Hd. f_equal.
  destruct d as [n c t]. cbn in *. now subst t.
Qed.

Lemma repeated_click_writes_same_value_witness :
  store (clickRow (ItemRow (mkItem "d1" (mkRecord "Old" "Cat" false)) true)
           (Return tt) signedIn) = store signedIn.
Proof.
  apply (repeated_click_writes_same_value
           (mkItem "d1" (mkRecord "Old" "Cat" false)) true
           (mkRecord "Old" "Cat" true) signedIn); reflexivity.
Defined.

(** * Further properties of the derived view *)

Section SearchFacts.



Lemma toLowerCase_truthy (q : string) : truthy (toLowerCase q) = truthy q.
Proof. now destruct q. Qed.



Lemma filter_sublist {A : Type} (f : A -> bool) (l : list A) :
  List.filter f l `sublist_of` l.
Proof.
  induction l as [|x l IH]; cbn [List.filter]; [constructor|].
  destruct (f x); now constructor.
Qed.


Lemma filter_comm {A : Type} (f g : A -> bool) (l : list A) :
  List.filter f (List.filter g l) = List.filter g (List.filter f l).
Proof.
  induction l as [|x l IH]; [reflexivity|]. cbn [List.filter].
  destruct (g x) eqn:Eg, (f x) eqn:Ef; cbn [List.filter];
    rewrite ?Eg, ?Ef, IH; reflexivity.
Qed.

Lemma displayedItems_sublist (l : list Item) (text : string) :
  displayedItems l text `sublist_of` l.
Proof.
  unfold displayedItems. destruct (negb (truthy text)); [reflexivity|].
  apply filter_sublist.
Qed.

Lemma categoryFilteredItems_sublist (l : list Item) (selection : string) :
  categoryFilteredItems l selection `sublist_of` l.
Proof.
  unfold categoryFilteredItems. destruct (String.eqb selection "All"); [reflexivity|].
  apply filter_sublist.
Qed.

End SearchFacts.

(** X17. The dashboard numbers are consistent with one another and with
    the list: taken and not taken are between zero and the total and add up
    to it, the number of displayed rows never exceeds the total, and the
    displayed rows are items of the mirror in the mirror's order. *)
Theorem dashboard_bounds (st : AppState) :
  let v := render st in
  (0 <= Stats.taken (stats v) <= Stats.total (stats v))%Z /\
  (0 <= Stats.notTaken (stats v) <= Stats.total (stats v))%Z /\
  (Stats.taken (stats v) + Stats.notTaken (stats v) = Stats.total (stats v))%Z /\
  (Z.of_nat (length (displayed v)) <= Stats.total (stats v))%Z /\
  displayed v `sublist_of` items st.
Proof.
  cbv zeta. unfold render. cbn [stats displayed]. unfold dashboardStats.
  cbn [Stats.taken Stats.total Stats.notTaken].
  pose proof (filter_length_le (fun item : Item => taken item)
                (categoryFilteredItems (items st) (selectedCategory st))) as Htaken.
  pose proof (sublist_length _ _
                (displayedItems_sublist
                   (categoryFilteredItems (items st) (selectedCategory st))
                   (searchQuery st))) as Hshown.
  repeat split; try lia.
  etransitivity; [apply displayedItems_sublist | apply categoryFilteredItems_sublist].
Qed.

(** X18. The search does not depend on the case of the search text: two
    texts with the same lowercase form display the same rows. *)
Theorem search_ignores_query_case (l : list Item) (text1 text2 : string) :
  toLowerCase text1 = toLowerCase text2 ->
  displayedItems l text1 = displayedItems l text2.
Proof.
  intros Heq. unfold displayedItems.
  rewrite <- (toLowerCase_truthy text1), <- (toLowerCase_truthy text2), Heq.
  reflexivity.
Qed.

Lemma search_ignores_query_case_witness :
  displayedItems exampleItems "X" = displayedItems exampleItems "x".
Proof. apply search_ignores_query_case. reflexivity. Defined.


(** X20. The two stages commute on the list: searching within the
    selected category gives the rows of the selected category among the
    search results over all items. *)
Theorem stages_commute (l : list Item) (selection text : string) :
  displayedItems (categoryFilteredItems l selection) text =
  categoryFilteredItems (displayedItems l text) selection.
Proof.
  unfold displayedItems, categoryFilteredItems.
  destruct (negb (truthy text)), (String.eqb selection "All"); try reflexivity.
  apply filter_comm.
Qed.

(** * Session, loading gate and list area *)

(** X21. A failed sign-in is not shown: when no user is signed in and
    the sign-in is rejected while the component is still loading, the session
    is marked resolved and the error is stored, but the subscription is not
    opened and the component keeps rendering the loading screen, on which no
    error appears. *)
Theorem failed_sign_in_stays_loading (st : AppState) (message : string) :
  userId st = None -> isLoading st = true ->
  let st1 := onAuthStateChanged None (Throw message) st in
  isAuthReady st1 = true /\
  error st1 = Some "Failed to authenticate. Please refresh." /\
  subscriptionEffect st1 = None /\
  App st1 = LoadingScreen.
Proof.
  intros Huser Hloading. cbv zeta. repeat split.
  - unfold subscriptionEffect. cbn. now rewrite Huser.
  - unfold App. cbn. now rewrite Hloading.
Qed.

Lemma failed_sign_in_stays_loading_witness :
  App (onAuthStateChanged None (Throw "network-request-failed") initialState)
  = LoadingScreen.
Proof.
  apply (failed_sign_in_stays_loading initialState "network-request-failed");
    reflexivity.
Defined.

(** X22. From sign-in to the first render: once a user with a non-empty
    identifier is reported, the subscription effect runs and raises the
    loading flag, the loading screen is rendered until the first snapshot,
    and after it the main screen is rendered with the user's identifier, no
    error banner and the category buttons starting with All; the list area
    asks for an upload exactly when the snapshot is empty. *)
Theorem sign_in_then_first_snapshot
    (uid : string) (result : Outcome unit) (querySnapshot : list Doc) (st : AppState) :
  uid <> "" ->
  let st1 := onAuthStateChanged (Some uid) result st in
  exists st2 main,
    subscriptionEffect st1 = Some st2 /\
    App st2 = LoadingScreen /\
    App (onSnapshotNext querySnapshot st2) = MainScreen main /\
    userLine main = Some uid /\
    errorBanner main = None /\
    (exists more, map fst (chips main) = "All" :: more) /\
    (listArea main = Placeholder "Upload a CSV to get started." <-> querySnapshot = []).
Proof.
  intros Huid. cbv zeta.
  assert (truthy uid = true) as Ht by now apply truthy_true.
  unfold subscriptionEffect, onAuthStateChanged.
  cbn [isAuthReady userId setIsAuthReady setUserId truthyOpt]. rewrite Ht. cbn [negb orb].
  eexists. eexists. split; [reflexivity|]. split.
  { unfold App. cbn. reflexivity. }
  split; [unfold App; cbn [isAuthReady isLoading onSnapshotNext setError setIsLoading
                            setCategories setItems setIsAuthReady setUserId negb orb];
          reflexivity|].
  cbn [userLine errorBanner chips listArea].
  split; [reflexivity|]. split; [reflexivity|]. split.
  - cbn [categories onSnapshotNext setError setIsLoading setCategories setItems].
    rewrite map_map. cbn [fst]. rewrite map_id.
    apply (collect_categories_extends querySnapshot ([], ["All"])).
  - cbn [items onSnapshotNext setError setIsLoading setCategories setItems
           selectedCategory searchQuery setIsAuthReady setUserId].
    rewrite collect_items. rewrite app_nil_l.
    destruct querySnapshot as [|d l].
    + unfold displayedItems, categoryFilteredItems.
      destruct (String.eqb (selectedCategory st) "All"),
        (negb (truthy (searchQuery st))); cbn; tauto.
    + cbn [map length Nat.eqb].
      split; [|discriminate].
      destruct (0 <? _)%nat; [discriminate|].
      destruct (truthy (searchQuery st)); discriminate.
Qed.

Lemma sign_in_then_first_snapshot_witness :
  exists st2 main,
    subscriptionEffect (onAuthStateChanged (Some "u1") (Return tt) initialState)
      = Some st2 /\
    App (onSnapshotNext [] st2) = MainScreen main /\
    listArea main = Placeholder "Upload a CSV to get started.".
Proof.
  destruct (sign_in_then_first_snapshot "u1" (Return tt) [] initialState)
    as (st2 & main & H1 & _ & H3 & _ & _ & _ & H7); [discriminate|].
  exists st2, main. split; [exact H1|]. split; [exact H3|]. now apply H7.
Defined.

(** X23. What the list area shows on the main screen: the rows of the
    displayed items, with their category only under All, when there is at
    least one; otherwise one of three messages.  It asks for an upload only
    when the mirror is empty, reports an unsuccessful search only when a
    search text is set, and reports an empty category only when no search
    text is set, the selection is not All and no mirrored item has the
    selected category. *)
Theorem list_area_cases (st : AppState) (main : Main) :
  App st = MainScreen main ->
  let shown := displayed (render st) in
  listCount main = length shown /\
  ((shown <> [] /\
    listArea main =
      Rows (map (fun item => ItemRow item (String.eqb (selectedCategory st) "All"))
              shown)) \/
   (items st = [] /\ listArea main = Placeholder "Upload a CSV to get started.") \/
   (items st <> [] /\ shown = [] /\ searchQuery st <> "" /\
    listArea main = Placeholder "No items match your search.") \/
   (items st <> [] /\ searchQuery st = "" /\ selectedCategory st <> "All" /\
    (forall item : Item, item ∈ items st -> category item <> selectedCategory st) /\
    listArea main = Placeholder "No items found for this category.")).
Proof.
  unfold App. destruct (negb (isAuthReady st) || isLoading st); [discriminate|].
  intros [= <-]. cbv zeta. cbn [listCount listArea render displayed].
  split; [reflexivity|].
  destruct (displayedItems _ (searchQuery st)) as [|item shown] eqn:Hshown.
  - right. cbn [length Nat.ltb Nat.leb].
    destruct (items st) as [|first rest] eqn:Hitems; [left; now split|].
    right. cbn [length Nat.eqb].
    destruct (truthy (searchQuery st)) eqn:Hq.
    + left. apply truthy_true in Hq. repeat split; [discriminate|assumption].
    + right. apply truthy_false in Hq.
      unfold displayedItems in Hshown. rewrite Hq in Hshown. cbn in Hshown.
      unfold categoryFilteredItems in Hshown.
      destruct (String.eqb_spec (selectedCategory st) "All") as [Hall|Hall];
        [discriminate|].
      repeat split; try assumption; [discriminate|].
      intros other Hother Hcat.
      assert (List.filter (fun i : Item => String.eqb (category i) (selectedCategory st))
                (first :: rest) <> []) as Hne.
      { apply filter_nonempty. exists other. split; [assumption|].
        now apply String.eqb_eq. }
      contradiction.
  - left. split; [discriminate | reflexivity].
Qed.

Lemma list_area_cases_witness :
  listCount
    (mkMain None "Upload CSV" false None None "Overall" (Stats.mk 0 0 0)
       [] 0 "" (Placeholder "Upload a CSV to get started.")) = 0.
Proof.
  apply (list_area_cases
           (setIsLoading false (setIsAuthReady true initialState))).
  reflexivity.
Defined.
